(** * tensorbuilder: the branching builder, embedded and verified

    A shallow embedding of [tensorbuilder.py]: the [Builder] class, the
    [BuilderTree] class, the [_immutable] decorator and the module functions
    [builder], [branches] and [_add_builders].

    Python objects live in a store.  A [Builder] object has two assignable
    attributes, [tensor] and [variables]; [variables] refers to a dict object,
    and dict objects are mutable and may be shared (the default argument
    [variables={}] of [Builder.__init__] is one dict object for the whole
    module).  TensorFlow is an external collaborator: tensors are opaque, and
    every call into it threads the default graph. *)

From stdpp Require Import gmap strings list fin_maps pretty.

#[local] Set Warnings "-register-all,-clear-no-such-hyp".

(** ** The numeric framework *)

(** What [tensor.get_shape()] reports: [None] when the rank is unknown,
    otherwise one entry per dimension, [None] for an unknown extent. *)
Definition tensor_shape := option (list (option nat)).

(** The operations the source calls on [tf]: [tf.Variable] over
    [tf.random_uniform(shape, -1.0, 1.0)], [tf.matmul], [tf.add], the [name]
    attribute and [get_shape].  Each call may raise and may grow the graph. *)
Class Collaborator := {
  Tensor : Type;
  graph : Type;
  tf_error : Type;
  get_shape : Tensor → tensor_shape;
  tensor_name : Tensor → string;
  tf_Variable : list nat → option string → graph → (tf_error + Tensor) * graph;
  tf_matmul : Tensor → Tensor → option string → graph → (tf_error + Tensor) * graph;
  tf_add : Tensor → Tensor → option string → graph → (tf_error + Tensor) * graph;
}.

(** Shape facts of a framework that infers static shapes the way TensorFlow
    does.  Only the bias length of the fan-in layer depends on them. *)
Class CollaboratorLaws (C : Collaborator) : Prop := {
  tf_Variable_shape sh nm g w g' :
    tf_Variable sh nm g = (inr w, g') → get_shape w = Some (Some <$> sh);
  tf_matmul_shape a b nm g c g' r n k :
    tf_matmul a b nm g = (inr c, g') →
    get_shape a = Some [r; Some n] → get_shape b = Some [Some n; Some k] →
    get_shape c = Some [r; Some k];
  tf_add_shape a b nm g c g' r r' k :
    tf_add a b nm g = (inr c, g') →
    get_shape a = Some [r; Some k] → get_shape b = Some [r'; Some k] →
    ∃ r'', get_shape c = Some [r''; Some k];
}.

(** ** Python values, exceptions and the store *)

Definition loc := nat.

Inductive result (E A : Type) : Type :=
  | Ok (a : A)
  | Raise (e : E).
Arguments Ok {E A} a.
Arguments Raise {E A} e.

Section Core.
Context {C : Collaborator}.

(** The source has no [raise] statement and defines no exception class.
    [ShapeError] and [EmptyTreeError] are the names of the specification;
    the other constructors are what the interpreter and the framework raise
    on the paths the source takes.  [InvalidRef] is not a Python exception:
    it stands for a location outside the store, which no Python reference
    can be. *)
Inductive exn : Type :=
  | ShapeError
  | EmptyTreeError
  | AttributeError
  | IndexError
  | TypeError
  | NameError
  | TFError (e : tf_error)
  | InvalidRef.

(** What the [tensor] attribute of a Builder may hold. *)
Inductive pyval : Type :=
  | PyNone
  | PyTensor (t : Tensor).

Record builder_object : Type := mkBuilder {
  tensor : pyval;
  variables : loc;
}.

(** An element of [BuilderTree.branches]: a Builder (a reference to the
    object) or a BuilderTree.  Neither the list nor a tree is ever assigned
    to after construction, so trees are kept by value. *)
Inductive element : Type :=
  | ABuilder (b : loc)
  | ABuilderTree (branches : list element).

Record state : Type := mkState {
  st_objs : gmap loc builder_object;
  st_dicts : gmap loc (gmap string Tensor);
  st_graph : graph;
}.

(** The dict object that [def __init__(self, tensor, variables={})] creates
    once, when the class body is executed. *)
Definition default_variables : loc := 0.

Definition initial_state (g : graph) : state :=
  {| st_objs := ∅; st_dicts := {[ default_variables := ∅ ]}; st_graph := g |}.

(** ** The monad of Python code: a store, and exceptions that keep it *)

Definition St (S A : Type) : Type := S → result exn A * S.

Definition ret {S A} (a : A) : St S A := λ s, (Ok a, s).

Definition bind {S A B} (m : St S A) (k : A → St S B) : St S B :=
  λ s, match m s with
       | (Ok a, s') => k a s'
       | (Raise e, s') => (Raise e, s')
       end.

Definition raise {S A} (e : exn) : St S A := λ s, (Raise e, s).

Definition lift_result {S A} (r : result exn A) : St S A := λ s, (r, s).

(** Code that only talks to the framework runs on the graph; the code of
    the module runs on the whole store. *)
Definition V (A : Type) : Type := St graph A.
Definition M (A : Type) : Type := St state A.

End Core.

Declare Scope py_scope.
Delimit Scope py_scope with py.
Notation "x <- m ;; k" := (bind m (λ x, k))
  (at level 100, m at next level, right associativity) : py_scope.
Notation "m ;; k" := (bind m (λ _, k))
  (at level 100, right associativity) : py_scope.
Open Scope py_scope.

Section Primitives.
Context {C : Collaborator}.

(** A call into the framework: its exceptions pass through unchanged. *)
Definition tf {A} (f : graph → (tf_error + A) * graph) : V A :=
  λ g, let '(r, g') := f g in
       (match r with inl e => Raise (TFError e) | inr a => Ok a end, g').

Definition on_graph {A} (c : V A) : M A :=
  λ s, let '(r, g) := c (st_graph s) in
       (r, {| st_objs := st_objs s; st_dicts := st_dicts s; st_graph := g |}).

Definition new_object (b : builder_object) : M loc :=
  λ s, let l := fresh (dom (st_objs s)) in
       (Ok l, {| st_objs := <[l := b]> (st_objs s);
                 st_dicts := st_dicts s; st_graph := st_graph s |}).

Definition new_dict (m : gmap string Tensor) : M loc :=
  λ s, let d := fresh (dom (st_dicts s)) in
       (Ok d, {| st_objs := st_objs s;
                 st_dicts := <[d := m]> (st_dicts s); st_graph := st_graph s |}).

Definition get_object (l : loc) : M builder_object :=
  λ s, match st_objs s !! l with
       | Some b => (Ok b, s)
       | None => (Raise InvalidRef, s)
       end.

Definition get_dict (d : loc) : M (gmap string Tensor) :=
  λ s, match st_dicts s !! d with
       | Some m => (Ok m, s)
       | None => (Raise InvalidRef, s)
       end.

(** [builder.tensor] and [builder.variables], read. *)
Definition get_tensor (l : loc) : M pyval := b <- get_object l ;; ret (tensor b).
Definition get_variables (l : loc) : M loc := b <- get_object l ;; ret (variables b).

(** [builder.tensor = t] *)
Definition set_tensor (l : loc) (t : pyval) : M unit :=
  λ s, match st_objs s !! l with
       | Some b => (Ok (), {| st_objs := <[l := mkBuilder t (variables b)]> (st_objs s);
                              st_dicts := st_dicts s; st_graph := st_graph s |})
       | None => (Raise InvalidRef, s)
       end.

(** [d[k] = v] *)
Definition dict_setitem (d : loc) (k : string) (v : Tensor) : M unit :=
  λ s, match st_dicts s !! d with
       | Some m => (Ok (), {| st_objs := st_objs s;
                              st_dicts := <[d := <[k := v]> m]> (st_dicts s);
                              st_graph := st_graph s |})
       | None => (Raise InvalidRef, s)
       end.

(** [d.update(other)]: the entries of [other] win. *)
Definition dict_update (d : loc) (other : gmap string Tensor) : M unit :=
  λ s, match st_dicts s !! d with
       | Some m => (Ok (), {| st_objs := st_objs s;
                              st_dicts := <[d := other ∪ m]> (st_dicts s);
                              st_graph := st_graph s |})
       | None => (Raise InvalidRef, s)
       end.

(** [int(t.get_shape()[1])].  Indexing a shape of known rank is indexing its
    list of dimensions; a shape of unknown rank answers any index with an
    unknown dimension; [int] of an unknown dimension is a [TypeError]. *)
Definition shape_index1 (sh : tensor_shape) : result exn nat :=
  match sh with
  | None => Raise TypeError
  | Some dims =>
      match dims !! 1 with
      | None => Raise IndexError
      | Some None => Raise TypeError
      | Some (Some d) => Ok d
      end
  end.

Definition dim1 (v : pyval) : result exn nat :=
  match v with
  | PyNone => Raise AttributeError
  | PyTensor t => shape_index1 (get_shape t)
  end.

(** [name if name else generated]: the truth test of a Python string. *)
Definition name_or (name : option string) (generated : string) : string :=
  match name with
  | Some s => if decide (s = EmptyString) then generated else s
  | None => generated
  end.

(** [tf.matmul(x, w, name=name)] and [tf.add(x, b, name=name)] with whatever
    the [tensor] attribute holds as first operand. *)
Definition matmul (x : pyval) (w : Tensor) (name : option string) : V pyval :=
  match x with
  | PyTensor t => c <- tf (tf_matmul t w name) ;; ret (PyTensor c)
  | PyNone => raise TypeError
  end.

Definition add (x : pyval) (y : pyval) (name : option string) : V pyval :=
  match x, y with
  | PyTensor a, PyTensor b => c <- tf (tf_add a b name) ;; ret (PyTensor c)
  | _, _ => raise TypeError
  end.

(** A function of the caller applied to a value: [fn(tensor, name=name)] in
    [connect_layer], and [fn(tensor, *args, **kwargs)] in [map], where the
    forwarded arguments are part of the function given here. *)
Definition activation : Type := pyval → option string → graph → (tf_error + pyval) * graph.
Definition mapped : Type := pyval → graph → (tf_error + pyval) * graph.

(** The decorator: the method runs on [self.copy()]. *)
Class HasCopy (Self : Type) := copy_of : Self → M Self.

Definition _immutable {Self} `{!HasCopy Self} {A} (method : Self → M A) (self : Self)
  : M A :=
  c <- copy_of self ;; method c.

End Primitives.

(** ** class Builder *)

Module Builder.
Section Methods.
Context {C : Collaborator}.

(** [Builder.__init__(self, tensor, variables={})] *)
Definition init (t : pyval) (vars : option loc) : M loc :=
  new_object {| tensor := t; variables := default default_variables vars |}.

Definition copy (self : loc) : M loc :=
  t <- get_tensor self ;;
  vs <- get_variables self ;;
  m <- get_dict vs ;;
  d <- new_dict m ;;
  init t (Some d).

#[global] Instance has_copy : HasCopy loc := copy.

Definition connect_weights (self : loc) (size : nat) (name weights_name : option string)
  : M loc :=
  _immutable (λ builder,
    t <- get_tensor builder ;;
    m <- lift_result (dim1 t) ;;
    let n := size in
    w <- on_graph (tf (tf_Variable [m; n] weights_name)) ;;
    let var_name := name_or weights_name (tensor_name w) in
    vs <- get_variables builder ;;
    dict_setitem vs var_name w ;;
    t <- get_tensor builder ;;
    t' <- on_graph (matmul t w name) ;;
    set_tensor builder t' ;;
    ret builder) self.

Definition connect_bias (self : loc) (name bias_name : option string) : M loc :=
  _immutable (λ builder,
    t <- get_tensor builder ;;
    m <- lift_result (dim1 t) ;;
    b <- on_graph (tf (tf_Variable [m] bias_name)) ;;
    let var_name := name_or bias_name (tensor_name b) in
    vs <- get_variables builder ;;
    dict_setitem vs var_name b ;;
    t <- get_tensor builder ;;
    t' <- on_graph (add t (PyTensor b) name) ;;
    set_tensor builder t' ;;
    ret builder) self.

(** [builder.tensor = fn(builder.tensor, name=name)] *)
Definition apply_fn (builder : loc) (fn : activation) (name : option string) : M unit :=
  t <- get_tensor builder ;;
  t' <- on_graph (tf (fn t name)) ;;
  set_tensor builder t'.

Definition connect_layer (self : loc) (size : nat) (fn : option activation)
    (name weights_name : option string) (bias : bool) (bias_name : option string) : M loc :=
  _immutable (λ builder,
    builder <- connect_weights builder size None weights_name ;;
    builder <- (if bias then connect_bias builder None bias_name else ret builder) ;;
    match fn with
    | Some fn => apply_fn builder fn name
    | None => ret ()
    end ;;
    ret builder) self.

Definition map (self : loc) (fn : mapped) : M loc :=
  _immutable (λ builder,
    t <- get_tensor builder ;;
    t' <- on_graph (tf (fn t)) ;;
    set_tensor builder t' ;;
    ret builder) self.

(** [then]: the result of the callback, whatever it is. *)
Definition then_ (self : loc) (fn : loc → M element) : M element :=
  _immutable (λ builder, fn builder) self.

Definition branch (self : loc) (fn : loc → M (list element)) : M element :=
  _immutable (λ builder,
    branches <- fn builder ;;
    ret (ABuilderTree branches)) self.

(** The generator [_leafs], given with the body of the loop that consumes
    it: [consume] is run on each Builder yielded, at the time it is yielded,
    and the results are collected in order. *)
Definition _leafs {A} (self : loc) (consume : loc → M A) : M (list A) :=
  _immutable (λ builder, r <- consume builder ;; ret [r]) self.

End Methods.
End Builder.

(** ** Module functions *)

Section ModuleFuns.
Context {C : Collaborator}.

Definition builder (t : pyval) : M loc := Builder.init t None.

Definition branches (builder_list : list element) : element := ABuilderTree builder_list.

(** The loop of [_add_builders]; [tensor] is the running sum, [None] before
    the first Builder. *)
Fixpoint _add_builders_loop (vars : loc) (tensor : pyval) (builders : list loc) : M pyval :=
  match builders with
  | [] => ret tensor
  | builder :: rest =>
      bt <- get_tensor builder ;;
      tensor <- match tensor with
                | PyNone => ret bt
                | PyTensor _ => on_graph (add tensor bt None)
                end ;;
      bvs <- get_variables builder ;;
      m <- get_dict bvs ;;
      dict_update vars m ;;
      _add_builders_loop vars tensor rest
  end.

Definition _add_builders (builders : list loc) : M loc :=
  vars <- new_dict ∅ ;;
  tensor <- _add_builders_loop vars PyNone builders ;;
  Builder.init tensor (Some vars).

End ModuleFuns.

(** ** class BuilderTree *)

Module BuilderTree.
Section Methods.
Context {C : Collaborator}.

(** A BuilderTree is given by its [branches]. *)
Definition copy (self : list element) : M (list element) := ret self.

#[global] Instance has_copy : HasCopy (list element) := copy.

(** [for branch in tree.branches: for builder in branch._leafs(): yield builder],
    with [branch._leafs()] dispatched on the class of [branch]. *)
Fixpoint element_leafs {A} (branch : element) (consume : loc → M A) : M (list A) :=
  match branch with
  | ABuilder b => Builder._leafs b consume
  | ABuilderTree tree =>
      _immutable (λ tree,
        (fix loop (bs : list element) : M (list A) :=
           match bs with
           | [] => ret []
           | branch :: rest =>
               xs <- element_leafs branch consume ;;
               ys <- loop rest ;;
               ret (xs ++ ys)
           end) tree) tree
  end.

Definition _leafs {A} (self : list element) (consume : loc → M A) : M (list A) :=
  element_leafs (ABuilderTree self) consume.

(** [[builder for builder in self._leafs()]] *)
Definition builders (self : list element) : M (list loc) :=
  _leafs self ret.

(** [[builder.tensor for builder in self._leafs()]] *)
Definition tensors (self : list element) : M (list pyval) :=
  _leafs self get_tensor.

Definition connect_layer (self : list element) (size : nat) (fn : option activation)
    (name : option string) (bias : bool) (bias_name : option string) : M loc :=
  _immutable (λ tree,
    builders <- _leafs tree (λ builder, Builder.connect_weights builder size None None) ;;
    builder <- _add_builders builders ;;
    builder <- (if bias then Builder.connect_bias builder None bias_name else ret builder) ;;
    match fn with
    | Some fn => Builder.apply_fn builder fn name
    | None => ret ()
    end ;;
    ret builder) self.

End Methods.
End BuilderTree.

(** ** Programs over the public interface

    Expressions a caller can write with the module functions and the public
    methods only.  The callbacks of [then] and [branch] are such expressions
    too; inside one, variable 0 is the Builder handed to the callback and the
    variables of the enclosing program follow. *)

Section Programs.
Context {C : Collaborator}.

Inductive expr : Type :=
  | EVar (i : nat)
  | EBuilder (t : pyval)
  | EBranches (es : list expr)
  | EConnectWeights (e : expr) (size : nat) (name weights_name : option string)
  | EConnectBias (e : expr) (name bias_name : option string)
  | EConnectLayer (e : expr) (size : nat) (fn : option activation)
      (name weights_name : option string) (bias : bool) (bias_name : option string)
  | EMap (e : expr) (fn : mapped)
  | EThen (e : expr) (body : expr)
  | EBranch (e : expr) (bodies : list expr)
  | ELeaf (e : expr) (i : nat)
  | ETreeConnectLayer (e : expr) (size : nat) (fn : option activation)
      (name : option string) (bias : bool) (bias_name : option string).

(** A method of Builder called on whatever the receiver evaluates to. *)
Definition on_builder {A} (r : element) (method : loc → M A) : M A :=
  match r with
  | ABuilder b => method b
  | ABuilderTree _ => raise AttributeError
  end.

Definition on_tree {A} (r : element) (method : list element → M A) : M A :=
  match r with
  | ABuilder _ => raise AttributeError
  | ABuilderTree t => method t
  end.

Fixpoint eval (env : list element) (e : expr) : M element :=
  let eval_list := fix eval_list (env : list element) (es : list expr) : M (list element) :=
    match es with
    | [] => ret []
    | e :: es => x <- eval env e ;; xs <- eval_list env es ;; ret (x :: xs)
    end in
  match e with
  | EVar i =>
      match env !! i with
      | Some x => ret x
      | None => raise NameError
      end
  | EBuilder t => b <- builder t ;; ret (ABuilder b)
  | EBranches es => xs <- eval_list env es ;; ret (branches xs)
  | EConnectWeights e size name weights_name =>
      r <- eval env e ;;
      b <- on_builder r (λ b, Builder.connect_weights b size name weights_name) ;;
      ret (ABuilder b)
  | EConnectBias e name bias_name =>
      r <- eval env e ;;
      b <- on_builder r (λ b, Builder.connect_bias b name bias_name) ;;
      ret (ABuilder b)
  | EConnectLayer e size fn name weights_name bias bias_name =>
      r <- eval env e ;;
      b <- on_builder r (λ b, Builder.connect_layer b size fn name weights_name bias bias_name) ;;
      ret (ABuilder b)
  | EMap e fn =>
      r <- eval env e ;;
      b <- on_builder r (λ b, Builder.map b fn) ;;
      ret (ABuilder b)
  | EThen e body =>
      r <- eval env e ;;
      on_builder r (λ b, Builder.then_ b (λ c, eval (ABuilder c :: env) body))
  | EBranch e bodies =>
      r <- eval env e ;;
      on_builder r (λ b, Builder.branch b (λ c, eval_list (ABuilder c :: env) bodies))
  | ELeaf e i =>
      r <- eval env e ;;
      ls <- BuilderTree.element_leafs r ret ;;
      match ls !! i with
      | Some l => ret (ABuilder l)
      | None => raise IndexError
      end
  | ETreeConnectLayer e size fn name bias bias_name =>
      r <- eval env e ;;
      b <- on_tree r (λ t, BuilderTree.connect_layer t size fn name bias bias_name) ;;
      ret (ABuilder b)
  end.

(** A sequence of statements [x = e]: each result is bound to a new
    variable, in front of the earlier ones. *)
Fixpoint run (env : list element) (script : list expr) : M (list element) :=
  match script with
  | [] => ret env
  | e :: rest => x <- eval env e ;; run (x :: env) rest
  end.

End Programs.

(** ** What can be observed of a Builder *)

Section Views.
Context {C : Collaborator}.

(** The value and the parameter dictionary a Builder reference leads to. *)
Definition view_of : Type := pyval * gmap string Tensor.

Definition view (s : state) (l : loc) : option view_of :=
  match st_objs s !! l with
  | Some b =>
      match st_dicts s !! variables b with
      | Some m => Some (tensor b, m)
      | None => None
      end
  | None => None
  end.

(** Depth-first, left-to-right enumeration of the Builders of an element. *)
Fixpoint dfs (e : element) : list loc :=
  match e with
  | ABuilder b => [b]
  | ABuilderTree bs => concat (dfs <$> bs)
  end.

End Views.

(** ** A symbolic framework

    An instance of the collaborator in which a tensor is the expression that
    builds it.  Shapes are inferred as TensorFlow infers them for the
    operations used here, and anonymous variables are named [Variable],
    [Variable_1], ... in creation order. *)

Module SymTF.

Inductive sym : Type :=
  | Placeholder (shape : tensor_shape)
  | Var (name : string) (shape : list nat)
  | MatMul (a b : sym)
  | Add (a b : sym)
  | Apply (f : string) (a : sym).

Fixpoint shape_of (t : sym) : tensor_shape :=
  match t with
  | Placeholder sh => sh
  | Var _ sh => Some (Some <$> sh)
  | MatMul a b =>
      match shape_of a, shape_of b with
      | Some [r; _], Some [_; k] => Some [r; k]
      | _, _ => None
      end
  | Add a _ => shape_of a
  | Apply _ a => shape_of a
  end.

Definition name_of (t : sym) : string :=
  match t with
  | Placeholder _ => "Placeholder:0"
  | Var n _ => n +:+ ":0"
  | MatMul _ _ => "MatMul:0"
  | Add _ _ => "Add:0"
  | Apply f _ => f +:+ ":0"
  end.

Definition fresh_name (created : nat) : string :=
  match created with
  | 0 => "Variable"
  | S _ => "Variable_" +:+ pretty created
  end.

Definition new_variable (sh : list nat) (name : option string) (created : nat)
  : (string + sym) * nat :=
  let base := match name with
              | Some n => if decide (n = EmptyString) then fresh_name created else n
              | None => fresh_name created
              end in
  (inr (Var base sh), S created).

Definition matmul (a b : sym) (name : option string) (g : nat) : (string + sym) * nat :=
  match shape_of a, shape_of b with
  | Some [_; Some n], Some [Some n'; Some _] =>
      if decide (n = n') then (inr (MatMul a b), g)
      else (inl "Dimensions must be equal", g)
  | _, _ => (inl "Shape must be rank 2", g)
  end.

(** Elementwise addition: equal shapes, or a vector broadcast along the
    last dimension. *)
Definition add (a b : sym) (name : option string) (g : nat) : (string + sym) * nat :=
  match shape_of a, shape_of b with
  | Some da, Some db =>
      if decide (da = db) then (inr (Add a b), g)
      else if decide (Some db = (λ d, [d]) <$> last da) then (inr (Add a b), g)
      else (inl "Incompatible shapes", g)
  | _, _ => (inl "Incompatible shapes", g)
  end.

#[global] Instance collaborator : Collaborator := {|
  Tensor := sym;
  graph := nat;
  tf_error := string;
  get_shape := shape_of;
  tensor_name := name_of;
  tf_Variable := new_variable;
  tf_matmul := matmul;
  tf_add := add;
|}.

(** [tf.nn.<f>(x, name=name)] *)
Definition nn (f : string) : activation :=
  λ x name g,
    match x with
    | PyTensor t => (inr (PyTensor (Apply f t)), g)
    | PyNone => (inl "None values not supported", g)
    end.

Definition placeholder (shape : list (option nat)) : pyval :=
  PyTensor (Placeholder (Some shape)).

End SymTF.

(** ** The functional reading of the methods

    What each method computes from the view of its receiver, as a
    computation on the graph alone.  The methods are related to these
    functions below. *)

Section ViewSemantics.
Context {C : Collaborator}.

Definition weights_view (v : view_of) (size : nat) (name weights_name : option string)
  : V view_of :=
  m <- lift_result (dim1 v.1) ;;
  w <- tf (tf_Variable [m; size] weights_name) ;;
  t' <- matmul v.1 w name ;;
  ret (t', <[name_or weights_name (tensor_name w) := w]> v.2).

Definition bias_view (v : view_of) (name bias_name : option string) : V view_of :=
  m <- lift_result (dim1 v.1) ;;
  b <- tf (tf_Variable [m] bias_name) ;;
  t' <- add v.1 (PyTensor b) name ;;
  ret (t', <[name_or bias_name (tensor_name b) := b]> v.2).

Definition apply_view (v : view_of) (fn : activation) (name : option string) : V view_of :=
  t' <- tf (fn v.1 name) ;; ret (t', v.2).

Definition map_view (v : view_of) (fn : mapped) : V view_of :=
  t' <- tf (fn v.1) ;; ret (t', v.2).

Definition layer_view (v : view_of) (size : nat) (fn : option activation)
    (name weights_name : option string) (bias : bool) (bias_name : option string)
  : V view_of :=
  v <- weights_view v size None weights_name ;;
  v <- (if bias then bias_view v None bias_name else ret v) ;;
  match fn with
  | Some fn => apply_view v fn name
  | None => ret v
  end.

Fixpoint sum_views (tensor : pyval) (vs : list view_of) : V pyval :=
  match vs with
  | [] => ret tensor
  | v :: rest =>
      tensor <- match tensor with
                | PyNone => ret v.1
                | PyTensor _ => add tensor v.1 None
                end ;;
      sum_views tensor rest
  end.

Definition merge_views (acc : gmap string Tensor) (vs : list view_of) : gmap string Tensor :=
  foldl (λ acc v, v.2 ∪ acc) acc vs.

Definition add_views (vs : list view_of) : V view_of :=
  tensor <- sum_views PyNone vs ;;
  ret (tensor, merge_views ∅ vs).

Fixpoint each_view {A B} (f : A → V B) (vs : list A) : V (list B) :=
  match vs with
  | [] => ret []
  | v :: rest => x <- f v ;; xs <- each_view f rest ;; ret (x :: xs)
  end.

Definition fan_in_view (vs : list view_of) (size : nat) (fn : option activation)
    (name : option string) (bias : bool) (bias_name : option string) : V view_of :=
  ws <- each_view (λ v, weights_view v size None None) vs ;;
  v <- add_views ws ;;
  v <- (if bias then bias_view v None bias_name else ret v) ;;
  match fn with
  | Some fn => apply_view v fn name
  | None => ret v
  end.

End ViewSemantics.

(** ** The specification, in its own words *)

Section Specified.
Context {C : Collaborator}.

(** What a caller observes of a call: the exception raised, or the view of
    the Builder returned, and the graph. *)
Definition observe (out : result exn loc * state) : result exn (option view_of) * graph :=
  (match out.1 with
   | Ok l => Ok (view out.2 l)
   | Raise e => Raise e
   end, st_graph out.2).

(** The value [v] is a tensor whose second dimension is known to be [n]. *)
Definition has_width (v : pyval) (n : nat) : Prop :=
  ∃ x dims, v = PyTensor x ∧ get_shape x = Some dims ∧ dims !! 1 = Some (Some n).

(** The value [v] is a tensor of shape [[m, n]], [m] possibly unknown. *)
Definition two_dimensional (v : pyval) : Prop :=
  ∃ x m n, v = PyTensor x ∧ get_shape x = Some [m; Some n].

(** "Composes connect_weights then, if use_bias, connect_bias, then if
    activation is supplied, applies it to the value": the three steps as
    separate calls on the public interface. *)
Definition layer_by_steps (n : loc) (size : nat) (fn : option activation)
    (name weights_name : option string) (bias : bool) (bias_name : option string) : M loc :=
  b <- Builder.connect_weights n size None weights_name ;;
  b <- (if bias then Builder.connect_bias b None bias_name else ret b) ;;
  match fn with
  | Some fn => Builder.map b (λ t, fn t name)
  | None => ret b
  end.

(** "For every leaf Node, creates an independent weight connection of shape
    [leaf_m, size] with no bias." *)
Definition leaf_connection (size : nat) (v : view_of) : V (Tensor * gmap string Tensor) :=
  match v.1 with
  | PyTensor x =>
      match get_shape x with
      | Some [_; Some n] =>
          w <- tf (tf_Variable [n; size] None) ;;
          y <- tf (tf_matmul x w None) ;;
          ret (y, <[tensor_name w := w]> v.2)
      | _ => raise ShapeError
      end
  | PyNone => raise ShapeError
  end.

(** "Reduced by elementwise sum, in leaf order, into one combined value." *)
Fixpoint sum_in_order (total : Tensor) (values : list Tensor) : V Tensor :=
  match values with
  | [] => ret total
  | y :: rest => total <- tf (tf_add total y None) ;; sum_in_order total rest
  end.

(** "The first leaf's parameter mapping seeds the merged mapping, and each
    subsequent leaf's mapping is merged in (later entries overwrite)." *)
Definition merge_in_order (first : gmap string Tensor) (rest : list (gmap string Tensor))
  : gmap string Tensor :=
  foldl (λ merged params, params ∪ merged) first rest.

(** The fan-in layer of section 4.2, on the views of the leaves. *)
Definition fan_in_spec (leaves : list view_of) (size : nat) (fn : option activation)
    (name : option string) (bias : bool) (bias_name : option string) : V view_of :=
  per_leaf <- each_view (leaf_connection size) leaves ;;
  match per_leaf with
  | [] => raise EmptyTreeError
  | (first_value, first_params) :: rest =>
      total <- sum_in_order first_value (fst <$> rest) ;;
      let params := merge_in_order first_params (snd <$> rest) in
      r <- (if bias then
              b <- tf (tf_Variable [size] bias_name) ;;
              total <- tf (tf_add total b None) ;;
              ret (total, <[name_or bias_name (tensor_name b) := b]> params)
            else ret (total, params)) ;;
      match fn with
      | Some fn => value <- tf (fn (PyTensor r.1) name) ;; ret (value, r.2)
      | None => ret (PyTensor r.1, r.2)
      end
  end.

(** One public operation called on a Node bound to variable 0; the
    callbacks of [then] and [branch] are programs over the public
    interface. *)
Inductive call : Type :=
  | CallConnectWeights (size : nat) (name weights_name : option string)
  | CallConnectBias (name bias_name : option string)
  | CallConnectLayer (size : nat) (fn : option activation)
      (name weights_name : option string) (bias : bool) (bias_name : option string)
  | CallMap (fn : mapped)
  | CallThen (body : expr)
  | CallBranch (bodies : list expr)
  | CallLeaves.

Definition call_expr (c : call) : expr :=
  match c with
  | CallConnectWeights size name weights_name =>
      EConnectWeights (EVar 0) size name weights_name
  | CallConnectBias name bias_name => EConnectBias (EVar 0) name bias_name
  | CallConnectLayer size fn name weights_name bias bias_name =>
      EConnectLayer (EVar 0) size fn name weights_name bias bias_name
  | CallMap fn => EMap (EVar 0) fn
  | CallThen body => EThen (EVar 0) body
  | CallBranch bodies => EBranch (EVar 0) bodies
  | CallLeaves => ELeaf (EVar 0) 0
  end.

(** The operations whose result is a Builder made by the operation itself. *)
Definition makes_builder (c : call) : bool :=
  match c with
  | CallThen _ | CallBranch _ => false
  | _ => true
  end.

End Specified.

(** ** Example inputs *)

Module Examples.
Import SymTF.

(** [tf.placeholder(tf.float32, shape=[None, 5])] and tensors of other
    ranks and widths. *)
Definition x : pyval := placeholder [None; Some 5].
Definition wide : pyval := placeholder [None; Some 8].
Definition vector : pyval := placeholder [Some 5].
Definition cube : pyval := placeholder [Some 2; Some 3; Some 3].

(** The store of a module just imported, with an empty graph. *)
Definition just_imported : state := initial_state (C := collaborator) 0.

(** The store after [tb.builder(t)]: the Builder is object 0 and holds the
    default dict. *)
Definition after_builder (t : pyval) : state := (builder t just_imported).2.

(** The store after [a = tb.builder(wide); b = tb.builder(x)]: objects 0
    and 1. *)
Definition after_two_builders : state :=
  ((a <- builder wide ;; builder x) just_imported).2.

(** [lambda b: n], for a Builder [n] of the enclosing scope. *)
Definition returning (n : loc) : loc → M element := λ _, ret (ABuilder n).

End Examples.

(** ** Notions of the verification *)

Section Notions.
Context {C : Collaborator}.

Definition extends (s s' : state) : Prop :=
  st_objs s ⊆ st_objs s' ∧ st_dicts s ⊆ st_dicts s'.

(** The outcome of a method, as a caller observes it through the result:
    it agrees with a computation [spec] on views when the store only grew,
    the graph is the one [spec] leaves, an exception is the one [spec]
    raises, and a returned Builder is a new object with the view [spec]
    returns. *)
Definition returns {A B} (R : state → state → A → B → Prop) (s : state)
    (out : result exn A * state) (spec : result exn B * graph) : Prop :=
  extends s out.2 ∧ st_graph out.2 = spec.2 ∧
  match out.1, spec.1 with
  | Ok a, Ok b => R s out.2 a b
  | Raise e, Raise e' => e = e'
  | _, _ => False
  end.

Definition new_with_view (s s' : state) (l : loc) (v : view_of) : Prop :=
  view s' l = Some v ∧ l ∉ dom (st_objs s).

Definition returns_view : state → result exn loc * state → result exn view_of * graph → Prop :=
  returns new_with_view.

Definition news_with_views (s s' : state) (ls : list loc) (vs : list view_of) : Prop :=
  Forall2 (λ l v, view s' l = Some v) ls vs ∧
  Forall (λ l, l ∉ dom (st_objs s)) ls ∧ NoDup ls.

(** *** Running code: a weakest precondition for the store monad *)

Definition wp {S A} (m : St S A) (Q : result exn A → S → Prop) (s : S) : Prop :=
  Q (m s).1 (m s).2.

(** *** Nothing that exists is written to *)

(** [m], run from [s], keeps every object and dict of [s0] as it is; a
    Builder it returns is not one of [s0]. *)
Definition keeps {A} (s0 : state) (m : M A) (s : state) : Prop :=
  wp m (λ _ s', extends s0 s') s.

Definition keeps_new (s0 : state) (m : M loc) (s : state) : Prop :=
  wp m (λ r s', extends s0 s' ∧ ∀ l, r = Ok l → l ∉ dom (st_objs s0)) s.

Fixpoint leafs_loop {A} (consume : loc → M A) (bs : list element) : M (list A) :=
  match bs with
  | [] => ret []
  | branch :: rest =>
      xs <- BuilderTree.element_leafs branch consume ;;
      ys <- leafs_loop consume rest ;;
      ret (xs ++ ys)
  end.

Fixpoint eval_list (env : list element) (es : list expr) : M (list element) :=
  match es with
  | [] => ret []
  | e :: es => x <- eval env e ;; xs <- eval_list env es ;; ret (x :: xs)
  end.

(** A leaf connection of the specification, as the view of a Builder. *)
Definition as_view (y : Tensor * gmap string Tensor) : view_of := (PyTensor y.1, y.2).

(** The tensor [y] has shape [[m, size]]. *)
Definition has_columns (size : nat) (y : Tensor) : Prop :=
  ∃ r, get_shape y = Some [r; Some size].

(** Induction over elements and over programs, through their lists. *)
(** *** Leaves *)

Fixpoint element_ind' (P : element → Prop)
    (HB : ∀ b, P (ABuilder b))
    (HT : ∀ bs, Forall P bs → P (ABuilderTree bs)) (e : element) : P e :=
  match e with
  | ABuilder b => HB b
  | ABuilderTree bs =>
      HT bs ((fix go (bs : list element) : Forall P bs :=
                match bs with
                | [] => Forall_nil_2 P
                | x :: r => Forall_cons_2 P x r (element_ind' P HB HT x) (go r)
                end) bs)
  end.

(** *** Programs *)

Section ExprInd.
Context (P : expr → Prop).
Hypothesis HVar : ∀ i, P (EVar i).
Hypothesis HBuilder : ∀ t, P (EBuilder t).
Hypothesis HBranches : ∀ es, Forall P es → P (EBranches es).
Hypothesis HWeights : ∀ e size name wn, P e → P (EConnectWeights e size name wn).
Hypothesis HBias : ∀ e name bn, P e → P (EConnectBias e name bn).
Hypothesis HLayer : ∀ e size fn name wn bias bn,
  P e → P (EConnectLayer e size fn name wn bias bn).
Hypothesis HMap : ∀ e fn, P e → P (EMap e fn).
Hypothesis HThen : ∀ e body, P e → P body → P (EThen e body).
Hypothesis HBranch : ∀ e bodies, P e → Forall P bodies → P (EBranch e bodies).
Hypothesis HLeaf : ∀ e i, P e → P (ELeaf e i).
Hypothesis HTree : ∀ e size fn name bias bn,
  P e → P (ETreeConnectLayer e size fn name bias bn).
Fixpoint expr_ind' (e : expr) : P e :=
  let all := fix all (es : list expr) : Forall P es :=
    match es with
    | [] => Forall_nil_2 P
    | x :: r => Forall_cons_2 P x r (expr_ind' x) (all r)
    end in
  match e with
  | EVar i => HVar i
  | EBuilder t => HBuilder t
  | EBranches es => HBranches es (all es)
  | EConnectWeights e size name wn => HWeights e size name wn (expr_ind' e)
  | EConnectBias e name bn => HBias e name bn (expr_ind' e)
  | EConnectLayer e size fn name wn bias bn =>
      HLayer e size fn name wn bias bn (expr_ind' e)
  | EMap e fn => HMap e fn (expr_ind' e)
  | EThen e body => HThen e body (expr_ind' e) (expr_ind' body)
  | EBranch e bodies => HBranch e bodies (expr_ind' e) (all bodies)
  | ELeaf e i => HLeaf e i (expr_ind' e)
  | ETreeConnectLayer e size fn name bias bn =>
      HTree e size fn name bias bn (expr_ind' e)
  end.
End ExprInd.

End Notions.

(** ** Notions of the further properties *)

Section Further.
Context {C : Collaborator}.

(** A callback of [then] that writes to the Builder it is handed and
    returns it, as [sigmoid_layer] in the documentation of [then] does:
    [builder.variables[k] = v; builder.tensor = t; return builder]. *)
Definition write_in_place (k : string) (v : Tensor) (t : pyval) : loc → M element :=
  λ builder,
    vs <- get_variables builder ;;
    dict_setitem vs k v ;;
    set_tensor builder t ;;
    ret (ABuilder builder).

(** A callback of [branch]: the list [[z.map(f1), z.map(f2), ...]], whose
    elements Python evaluates from left to right. *)
Fixpoint map_each (fs : list mapped) (z : loc) : M (list element) :=
  match fs with
  | [] => ret []
  | f :: rest =>
      l <- Builder.map z f ;;
      ls <- map_each rest z ;;
      ret (ABuilder l :: ls)
  end.

(** The loops of [_leafs] run over the leaves of a tree given as a flat
    list. *)
Fixpoint each_leaf {A} (consume : loc → M A) (leaves : list loc) : M (list A) :=
  match leaves with
  | [] => ret []
  | l :: rest =>
      xs <- Builder._leafs l consume ;;
      ys <- each_leaf consume rest ;;
      ret (xs ++ ys)
  end.

(** The entry of key [k] once the mappings of [vs] were merged in order: the
    one of the last mapping that has the key. *)
Definition last_binding (k : string) (vs : list view_of) : option Tensor :=
  foldl (λ found v, match v.2 !! k with Some w => Some w | None => found end) None vs.

End Further.

(** ** Example networks *)

Module Networks.
Import SymTF Examples.

(** [tf.nn.sigmoid] and [tf.nn.relu] as the argument of [map]. *)
Definition sigmoid : mapped := λ t, nn "sigmoid" t None.
Definition relu : mapped := λ t, nn "relu" t None.

(** The store after [tb.builder(x).connect_layer(4, weights_name="w0",
    bias_name="b0")]: the receiver is object 0, the layer is object 3. *)
Definition after_layer : state :=
  ((n <- builder x ;; Builder.connect_layer n 4 None None (Some "w0") true (Some "b0"))
     just_imported).2.

(** The store after [a = tb.builder(wide); b = tb.builder(x)] followed by
    [a.connect_weights(3, weights_name=wa)] and
    [b.connect_weights(3, weights_name=wb)]: the two results are objects 2
    and 3. *)
Definition two_connected (wa wb : string) : state :=
  ((a <- builder wide ;; b <- builder x ;;
    Builder.connect_weights a 3 None (Some wa) ;;
    Builder.connect_weights b 3 None (Some wb)) just_imported).2.

(** The store after [a = tb.builder(wide); b = tb.builder(vector)]. *)
Definition after_wide_and_vector : state :=
  ((a <- builder wide ;; builder vector) just_imported).2.

End Networks.

(** * Verification *)

(** ** The store and the running of code *)

Ltac red_state :=
  cbn [st_objs st_dicts st_graph tensor variables fst snd default from_option id].

Section Store.
Context {C : Collaborator}.

#[global] Instance extends_preorder : PreOrder extends.
Proof.
  split.
  - intros s. split; reflexivity.
  - intros s1 s2 s3 [? ?] [? ?]. split; etrans; eassumption.
Qed.

Lemma fresh_lookup {A} (m : gmap loc A) : m !! fresh (dom m) = None.
Proof. apply not_elem_of_dom, is_fresh. Qed.

Lemma extends_objs s s' l b :
  extends s s' → st_objs s !! l = Some b → st_objs s' !! l = Some b.
Proof. intros [H _] Hl. by eapply lookup_weaken. Qed.

Lemma extends_dicts s s' d m :
  extends s s' → st_dicts s !! d = Some m → st_dicts s' !! d = Some m.
Proof. intros [_ H] Hl. by eapply lookup_weaken. Qed.

Lemma extends_dom s s' l :
  extends s s' → l ∉ dom (st_objs s') → l ∉ dom (st_objs s).
Proof.
  intros [H _] Hl Hin. apply Hl. apply elem_of_dom in Hin as [b Hb].
  apply elem_of_dom. exists b. by eapply lookup_weaken.
Qed.

Lemma extends_same s0 s s' :
  extends s0 s → st_objs s' = st_objs s → st_dicts s' = st_dicts s → extends s0 s'.
Proof. intros [? ?] Ho Hd. split; by rewrite ?Ho, ?Hd. Qed.

Lemma view_extends s s' l v : extends s s' → view s l = Some v → view s' l = Some v.
Proof.
  intros Hext. unfold view.
  destruct (st_objs s !! l) as [b|] eqn:Hb; [|done].
  destruct (st_dicts s !! variables b) as [m|] eqn:Hm; [|done].
  intros [= <-].
  by rewrite (extends_objs _ _ _ _ Hext Hb), (extends_dicts _ _ _ _ Hext Hm).
Qed.

Lemma views_extend s s' ls vs :
  extends s s' → Forall2 (λ l v, view s l = Some v) ls vs →
  Forall2 (λ l v, view s' l = Some v) ls vs.
Proof. intros Hext H. eapply Forall2_impl; [exact H|]. intros l v. by apply view_extends. Qed.

Lemma view_dom s l v : view s l = Some v → l ∈ dom (st_objs s).
Proof.
  unfold view. destruct (st_objs s !! l) eqn:Hb; [|done].
  intros _. apply elem_of_dom. eauto.
Qed.

Lemma view_lookup s l t m d :
  st_objs s !! l = Some (mkBuilder t d) → st_dicts s !! d = Some m → view s l = Some (t, m).
Proof. intros Ho Hd. unfold view. rewrite Ho. red_state. by rewrite Hd. Qed.

Lemma view_inv s l v :
  view s l = Some v →
  ∃ d, st_objs s !! l = Some (mkBuilder v.1 d) ∧ st_dicts s !! d = Some v.2.
Proof.
  unfold view. destruct (st_objs s !! l) as [[t d]|]; [|done]. red_state.
  destruct (st_dicts s !! d) as [m|] eqn:Hm; [|done]. intros [= <-]. eauto.
Qed.

Lemma returns_view_weaken s0 s out spec :
  extends s0 s → returns_view s out spec → returns_view s0 out spec.
Proof.
  intros Hext (H1 & H2 & H3). split; [by etrans|]. split; [done|].
  destruct out as [[l|e] s'], spec as [[v|e'] g]; simpl in *; try done.
  destruct H3 as [? ?]. split; [done|]. by eapply extends_dom.
Qed.

Lemma returns_bind {A B A' B'} (R : state → state → A → B → Prop)
    (R' : state → state → A' → B' → Prop) s0 sm s
    (m : M A) (k : A → M A') (vm : V B) (vk : B → V B') :
  extends s0 sm →
  returns R sm (m s) (vm (st_graph s)) →
  (∀ a s1 b, extends s0 s1 → extends sm s1 → R sm s1 a b →
             returns R' s0 (k a s1) (vk b (st_graph s1))) →
  returns R' s0 (bind m k s) (bind vm vk (st_graph s)).
Proof.
  intros Hext (H1 & H2 & H3) Hk. unfold bind.
  destruct (m s) as [[a|e] s1], (vm (st_graph s)) as [[b|e'] g1]; simpl in *; try done.
  - subst g1. apply Hk; [by etrans|done|done].
  - subst. split; [by etrans|]. done.
Qed.

Lemma wp_bind {S A B} (m : St S A) (k : A → St S B) Q s :
  wp m (λ r s', match r with Ok a => wp (k a) Q s' | Raise e => Q (Raise e) s' end) s →
  wp (bind m k) Q s.
Proof. unfold wp, bind. by destruct (m s) as [[a|e] s']. Qed.

Lemma wp_ret {S A} (a : A) (Q : result exn A → S → Prop) s : Q (Ok a) s → wp (ret a) Q s.
Proof. done. Qed.

Lemma wp_raise {S A} e (Q : result exn A → S → Prop) s : Q (Raise e) s → wp (raise e) Q s.
Proof. done. Qed.

Lemma wp_lift_result {S A} (r : result exn A) (Q : result exn A → S → Prop) s :
  Q r s → wp (lift_result r) Q s.
Proof. done. Qed.

Lemma wp_get_object l Q s :
  match st_objs s !! l with Some b => Q (Ok b) s | None => Q (Raise InvalidRef) s end →
  wp (get_object l) Q s.
Proof. unfold wp, get_object. by destruct (st_objs s !! l). Qed.

Lemma wp_get_tensor l Q s :
  match st_objs s !! l with
  | Some b => Q (Ok (tensor b)) s
  | None => Q (Raise InvalidRef) s
  end → wp (get_tensor l) Q s.
Proof. unfold wp, get_tensor, get_object, bind, ret. by destruct (st_objs s !! l). Qed.

Lemma wp_get_variables l Q s :
  match st_objs s !! l with
  | Some b => Q (Ok (variables b)) s
  | None => Q (Raise InvalidRef) s
  end → wp (get_variables l) Q s.
Proof. unfold wp, get_variables, get_object, bind, ret. by destruct (st_objs s !! l). Qed.

Lemma wp_get_dict d Q s :
  match st_dicts s !! d with Some m => Q (Ok m) s | None => Q (Raise InvalidRef) s end →
  wp (get_dict d) Q s.
Proof. unfold wp, get_dict. by destruct (st_dicts s !! d). Qed.

Lemma wp_new_dict m Q s :
  Q (Ok (fresh (dom (st_dicts s))))
    (mkState (st_objs s) (<[fresh (dom (st_dicts s)) := m]> (st_dicts s)) (st_graph s)) →
  wp (new_dict m) Q s.
Proof. done. Qed.

Lemma wp_new_object b Q s :
  Q (Ok (fresh (dom (st_objs s))))
    (mkState (<[fresh (dom (st_objs s)) := b]> (st_objs s)) (st_dicts s) (st_graph s)) →
  wp (new_object b) Q s.
Proof. done. Qed.

Lemma wp_set_tensor l t Q s :
  match st_objs s !! l with
  | Some b => Q (Ok ()) (mkState (<[l := mkBuilder t (variables b)]> (st_objs s))
                           (st_dicts s) (st_graph s))
  | None => Q (Raise InvalidRef) s
  end → wp (set_tensor l t) Q s.
Proof. unfold wp, set_tensor. by destruct (st_objs s !! l). Qed.

Lemma wp_dict_setitem d k v Q s :
  match st_dicts s !! d with
  | Some m => Q (Ok ()) (mkState (st_objs s) (<[d := <[k := v]> m]> (st_dicts s)) (st_graph s))
  | None => Q (Raise InvalidRef) s
  end → wp (dict_setitem d k v) Q s.
Proof. unfold wp, dict_setitem. by destruct (st_dicts s !! d). Qed.

Lemma wp_dict_update d other Q s :
  match st_dicts s !! d with
  | Some m => Q (Ok ()) (mkState (st_objs s) (<[d := other ∪ m]> (st_dicts s)) (st_graph s))
  | None => Q (Raise InvalidRef) s
  end → wp (dict_update d other) Q s.
Proof. unfold wp, dict_update. by destruct (st_dicts s !! d). Qed.

Lemma wp_on_graph {A} (c : V A) Q s :
  (∀ r g, c (st_graph s) = (r, g) → Q r (mkState (st_objs s) (st_dicts s) g)) →
  wp (on_graph c) Q s.
Proof. unfold wp, on_graph. intros H. destruct (c (st_graph s)). by apply H. Qed.

Lemma wp_init t vars Q s :
  Q (Ok (fresh (dom (st_objs s))))
    (mkState (<[fresh (dom (st_objs s)) := mkBuilder t (default default_variables vars)]>
                (st_objs s)) (st_dicts s) (st_graph s)) →
  wp (Builder.init t vars) Q s.
Proof. done. Qed.

Lemma wp_immutable {A} (method : loc → M A) self Q s :
  wp (bind (Builder.copy self) method) Q s → wp (_immutable method self) Q s.
Proof. done. Qed.

Lemma extends_graph s o d g g' :
  extends s (mkState o d g) → extends s (mkState o d g').
Proof. by intros [? ?]. Qed.

Lemma extends_obj s o d g l b :
  l ∉ dom (st_objs s) → extends s (mkState o d g) → extends s (mkState (<[l:=b]> o) d g).
Proof.
  intros Hl [Ho Hd]. split; [|done]. cbn [st_objs st_dicts st_graph] in *.
  apply insert_subseteq_r; [by apply not_elem_of_dom|done].
Qed.

Lemma extends_dict s o d g l m :
  l ∉ dom (st_dicts s) → extends s (mkState o d g) → extends s (mkState o (<[l:=m]> d) g).
Proof.
  intros Hl [Ho Hd]. split; [done|]. cbn [st_objs st_dicts st_graph] in *.
  apply insert_subseteq_r; [by apply not_elem_of_dom|done].
Qed.

Lemma extends_eta s s' :
  extends s s' → extends s (mkState (st_objs s') (st_dicts s') (st_graph s')).
Proof. by intros [? ?]. Qed.

Lemma returns_view_wp s0 s (m : M loc) spec :
  wp m (λ r s', returns_view s0 (r, s') spec) s → returns_view s0 (m s) spec.
Proof. unfold wp. by destruct (m s). Qed.

(** *** [_add_builders] *)

Lemma returns_run {A B} (R : state → state → A → B → Prop) s0 s (m : M A) spec :
  wp m (λ r s', returns R s0 (r, s') spec) s → returns R s0 (m s) spec.
Proof. unfold wp. by destruct (m s). Qed.

Lemma run_returns {A B} (R : state → state → A → B → Prop) s0 s (m : M A) spec :
  returns R s0 (m s) spec → wp m (λ r s', returns R s0 (r, s') spec) s.
Proof. unfold wp. by destruct (m s). Qed.

Lemma eq_wp {A} (m : M A) s out :
  wp m (λ r s', (r, s') = out) s → m s = out.
Proof. unfold wp. by destruct (m s). Qed.

Lemma keeps_new_keeps s0 m s : keeps_new s0 m s → keeps s0 m s.
Proof. unfold keeps_new, keeps, wp. tauto. Qed.

Lemma keeps_bind {A B} s0 (m : M A) (k : A → M B) s :
  keeps s0 m s → (∀ a s1, extends s0 s1 → keeps s0 (k a) s1) → keeps s0 (bind m k) s.
Proof.
  unfold keeps, wp, bind. intros Hm Hk.
  destruct (m s) as [[a|e] s1]; [|done]. by apply Hk.
Qed.

Lemma keeps_new_bind s0 (m : M loc) {B} (k : loc → M B) s :
  keeps_new s0 m s →
  (∀ l s1, extends s0 s1 → l ∉ dom (st_objs s0) → keeps s0 (k l) s1) →
  keeps s0 (bind m k) s.
Proof.
  unfold keeps_new, keeps, wp, bind. intros [Hm Hl] Hk.
  destruct (m s) as [[a|e] s1]; [|done]. apply Hk; [done|]. by apply Hl.
Qed.

Lemma keeps_ret {A} s0 (a : A) s : extends s0 s → keeps s0 (ret a) s.
Proof. done. Qed.

Lemma keeps_raise {A} s0 e s : extends s0 s → keeps s0 (raise (A := A) e) s.
Proof. done. Qed.

Lemma wp_keeps {A} s0 (m : M A) (Q : result exn A → state → Prop) s :
  keeps s0 m s → (∀ r s', extends s0 s' → Q r s') → wp m Q s.
Proof. unfold keeps, wp. auto. Qed.

Lemma wp_keeps_new s0 (m : M loc) (Q : result exn loc → state → Prop) s :
  keeps_new s0 m s →
  (∀ r s', extends s0 s' → (∀ l, r = Ok l → l ∉ dom (st_objs s0)) → Q r s') →
  wp m Q s.
Proof. unfold keeps_new, wp. intros [H1 H2] HQ. by apply HQ. Qed.

End Store.

Ltac wp_step :=
  lazymatch goal with
  | |- wp (bind _ _) _ _ => apply wp_bind
  | |- wp (ret _) _ _ => apply wp_ret
  | |- wp (raise _) _ _ => apply wp_raise
  | |- wp (lift_result _) _ _ => apply wp_lift_result
  | |- wp (get_tensor _) _ _ => apply wp_get_tensor
  | |- wp (get_variables _) _ _ => apply wp_get_variables
  | |- wp (get_object _) _ _ => apply wp_get_object
  | |- wp (get_dict _) _ _ => apply wp_get_dict
  | |- wp (new_dict _) _ _ => apply wp_new_dict
  | |- wp (new_object _) _ _ => apply wp_new_object
  | |- wp (Builder.init _ _) _ _ => apply wp_init
  | |- wp (set_tensor _ _) _ _ => apply wp_set_tensor
  | |- wp (dict_setitem _ _ _) _ _ => apply wp_dict_setitem
  | |- wp (dict_update _ _) _ _ => apply wp_dict_update
  | |- wp (on_graph _) _ _ => apply wp_on_graph
  | |- wp (_immutable _ _) _ _ => apply wp_immutable
  end;
  red_state.

Ltac wp_known :=
  match goal with
  | H : ?m !! ?l = _ |- context [?m !! ?l] => rewrite H
  | |- context [<[?l := _]> _ !! ?l] => rewrite lookup_insert_eq
  end;
  red_state.

Ltac wp_run := red_state; repeat first [wp_step | wp_known].

Ltac unfold_views H :=
  unfold layer_view, weights_view, bias_view, apply_view, map_view in H;
  unfold bind, ret, raise, lift_result in H; cbn beta iota delta [fst snd] in H.

Ltac solve_extends :=
  repeat first
    [ assumption
    | apply extends_obj; [assumption|]
    | apply extends_dict; [assumption|]
    | apply extends_eta; first [assumption | reflexivity]
    | eapply extends_graph; apply extends_eta; first [assumption | reflexivity] ].

Ltac solve_view := unfold view; red_state; repeat wp_known; done.

Ltac solve_returns :=
  subst; split; [solve_extends|]; split; [red_state; try done|]; red_state;
  try done; try (split; [solve_view|red_state; assumption]).

Ltac head_of t := lazymatch t with ?f _ => head_of f | _ => t end.

Ltac unfold_method :=
  lazymatch goal with |- wp ?m _ _ => let h := head_of m in unfold h end.

Section Copy.
Context {C : Collaborator}.

Lemma wp_copy self Q s :
  match view s self with
  | Some v =>
      ∀ l d s', extends s s' → l ∉ dom (st_objs s) → d ∉ dom (st_dicts s) →
                st_objs s' !! l = Some (mkBuilder v.1 d) → st_dicts s' !! d = Some v.2 →
                st_graph s' = st_graph s → Q (Ok l) s'
  | None => Q (Raise InvalidRef) s
  end → wp (Builder.copy self) Q s.
Proof.
  unfold view, Builder.copy. intros H. wp_run.
  destruct (st_objs s !! self) as [b|] eqn:Hb; [|done].
  wp_run.
  destruct (st_dicts s !! variables b) as [m|] eqn:Hm; wp_run; [|done].
  eapply H; red_state.
  - split; red_state; apply insert_subseteq, fresh_lookup.
  - apply is_fresh.
  - apply is_fresh.
  - by rewrite lookup_insert_eq.
  - by rewrite lookup_insert_eq.
  - done.
Qed.

End Copy.

Ltac method_invalid Hv :=
  apply eq_wp; unfold_method; wp_step; wp_step; apply wp_copy; rewrite Hv; done.

(** ** The methods, read functionally *)

Section Methods.
Context {C : Collaborator}.

Lemma connect_weights_spec s self size name wn :
  match view s self with
  | Some v => returns_view s (Builder.connect_weights self size name wn s)
                (weights_view v size name wn (st_graph s))
  | None => Builder.connect_weights self size name wn s = (Raise InvalidRef, s)
  end.
Proof.
  destruct (view s self) as [[t m]|] eqn:Hv.
  - remember (weights_view _ _ _ _ _) as spec eqn:Hspec. unfold_views Hspec.
    apply returns_view_wp. unfold Builder.connect_weights.
    wp_step. wp_step. apply wp_copy. rewrite Hv. intros l d s' Hext Hl Hd Hol Hdl Hg.
    wp_run.
    destruct (dim1 t) as [k|e]; [|solve_returns].
    wp_run. intros r g1 Hc. rewrite Hg in Hc. rewrite Hc in Hspec.
    destruct r as [w|e]; [|solve_returns].
    wp_run. intros r g2 Hc2. rewrite Hc2 in Hspec.
    destruct r as [t'|e]; [|solve_returns].
    wp_run. solve_returns.
  - method_invalid Hv.
Qed.

Lemma connect_bias_spec s self name bn :
  match view s self with
  | Some v => returns_view s (Builder.connect_bias self name bn s)
                (bias_view v name bn (st_graph s))
  | None => Builder.connect_bias self name bn s = (Raise InvalidRef, s)
  end.
Proof.
  destruct (view s self) as [[t m]|] eqn:Hv.
  - remember (bias_view _ _ _ _) as spec eqn:Hspec. unfold_views Hspec.
    apply returns_view_wp. unfold Builder.connect_bias.
    wp_step. wp_step. apply wp_copy. rewrite Hv. intros l d s' Hext Hl Hd Hol Hdl Hg.
    wp_run.
    destruct (dim1 t) as [k|e]; [|solve_returns].
    wp_run. intros r g1 Hc. rewrite Hg in Hc. rewrite Hc in Hspec.
    destruct r as [w|e]; [|solve_returns].
    wp_run. intros r g2 Hc2. rewrite Hc2 in Hspec.
    destruct r as [t'|e]; [|solve_returns].
    wp_run. solve_returns.
  - method_invalid Hv.
Qed.

Lemma map_spec s self fn :
  match view s self with
  | Some v => returns_view s (Builder.map self fn s) (map_view v fn (st_graph s))
  | None => Builder.map self fn s = (Raise InvalidRef, s)
  end.
Proof.
  destruct (view s self) as [[t m]|] eqn:Hv.
  - remember (map_view _ _ _) as spec eqn:Hspec. unfold_views Hspec.
    apply returns_view_wp. unfold Builder.map.
    wp_step. wp_step. apply wp_copy. rewrite Hv. intros l d s' Hext Hl Hd Hol Hdl Hg.
    wp_run. intros r g1 Hc. rewrite Hg in Hc. rewrite Hc in Hspec.
    destruct r as [w|e]; [|solve_returns].
    wp_run. solve_returns.
  - method_invalid Hv.
Qed.

(** The tail of both [connect_layer]s: the activation, applied in place to
    a Builder the method itself created. *)
Lemma apply_tail_spec s0 s1 l v fn name :
  extends s0 s1 → l ∉ dom (st_objs s0) → view s1 l = Some v →
  returns_view s0
    ((match fn with Some fn => Builder.apply_fn l fn name | None => ret () end ;; ret l) s1)
    ((match fn with Some fn => apply_view v fn name | None => ret v end) (st_graph s1)).
Proof.
  intros Hext Hl Hv. destruct (view_inv _ _ _ Hv) as (d & Ho & Hd).
  destruct fn as [fn|].
  - remember (apply_view _ _ _ _) as spec eqn:Hspec. unfold_views Hspec.
    apply returns_view_wp. unfold Builder.apply_fn. wp_run.
    intros r g1 Hc. rewrite Hc in Hspec.
    destruct r as [t'|e]; [|solve_returns].
    wp_run. solve_returns.
  - apply returns_view_wp. wp_run. split; [done|]. split; [done|]. by split.
Qed.

Lemma copy_spec s self :
  match view s self with
  | Some v => returns_view s (Builder.copy self s) (ret v (st_graph s))
  | None => Builder.copy self s = (Raise InvalidRef, s)
  end.
Proof.
  destruct (view s self) as [[t m]|] eqn:Hv.
  - apply returns_view_wp. apply wp_copy. rewrite Hv. intros l d s' Hext Hl Hd Hol Hdl Hg.
    split; [done|]. split; [done|]. split; [|done]. by apply view_lookup with d.
  - apply eq_wp, wp_copy. by rewrite Hv.
Qed.

Lemma connect_layer_spec s self size fn name wn bias bn :
  match view s self with
  | Some v => returns_view s (Builder.connect_layer self size fn name wn bias bn s)
                (layer_view v size fn name wn bias bn (st_graph s))
  | None => Builder.connect_layer self size fn name wn bias bn s = (Raise InvalidRef, s)
  end.
Proof.
  pose proof (copy_spec s self) as Hcopy.
  destruct (view s self) as [v|] eqn:Hv.
  - unfold Builder.connect_layer, _immutable.
    change (layer_view v size fn name wn bias bn (st_graph s))
      with (bind (ret v) (λ v, layer_view v size fn name wn bias bn) (st_graph s)).
    eapply returns_bind; [done|exact Hcopy|].
    intros l s1 v1 Hext1 _ [Hv1 Hl1]. unfold layer_view.
    pose proof (connect_weights_spec s1 l size None wn) as Hw. rewrite Hv1 in Hw.
    eapply returns_bind; [done|exact Hw|].
    intros l2 s2 v2 Hext2 Hext12 [Hv2 Hl2].
    assert (l2 ∉ dom (st_objs s)) as Hl2' by by apply (extends_dom s s1).
    destruct bias.
    + pose proof (connect_bias_spec s2 l2 None bn) as Hb. rewrite Hv2 in Hb.
      eapply returns_bind; [done|exact Hb|].
      intros l3 s3 v3 Hext3 Hext23 [Hv3 Hl3].
      apply apply_tail_spec; [done| |done]. by apply (extends_dom s s2).
    + by apply apply_tail_spec.
  - unfold Builder.connect_layer. apply eq_wp. wp_step. wp_step. apply wp_copy. by rewrite Hv.
Qed.

Lemma element_leafs_tree {A} (consume : loc → M A) bs s :
  BuilderTree.element_leafs (ABuilderTree bs) consume s = leafs_loop consume bs s.
Proof.
  revert s. induction bs as [|b bs IH]; intros s; [done|].
  change (BuilderTree.element_leafs (ABuilderTree (b :: bs)) consume s)
    with ((xs <- BuilderTree.element_leafs b consume ;;
           ys <- BuilderTree.element_leafs (ABuilderTree bs) consume ;;
           ret (xs ++ ys)) s).
  cbn [leafs_loop]. unfold bind.
  destruct (BuilderTree.element_leafs b consume s) as [[xs|e] s1]; [|done].
  by rewrite IH.
Qed.

Lemma each_view_app (f : view_of → V view_of) vs1 vs2 g :
  each_view f (vs1 ++ vs2) g =
  (xs <- each_view f vs1 ;; ys <- each_view f vs2 ;; ret (xs ++ ys)) g.
Proof.
  revert g. induction vs1 as [|v vs1 IH]; intros g.
  - cbn [each_view app]. unfold bind, ret.
    by destruct (each_view f vs2 g) as [[ys|e] g'].
  - cbn [each_view app]. unfold bind at 1 3 4.
    destruct (f v g) as [[x|e] g1]; [|done].
    unfold bind at 1. rewrite IH. unfold bind, ret.
    destruct (each_view f vs1 g1) as [[xs|e] g2]; [|done].
    by destruct (each_view f vs2 g2) as [[ys|e] g3].
Qed.

Section Leafs.
Context (consume : loc → M loc) (vconsume : view_of → V view_of).
Hypothesis consume_spec : ∀ s0 s1 l v,
  extends s0 s1 → l ∉ dom (st_objs s0) → view s1 l = Some v →
  returns_view s0 (consume l s1) (vconsume v (st_graph s1)).
Lemma element_leafs_spec e : ∀ s vs,
  Forall2 (λ l v, view s l = Some v) (dfs e) vs →
  returns news_with_views s (BuilderTree.element_leafs e consume s)
    (each_view vconsume vs (st_graph s)).
Proof.
  induction e as [b|bs IH] using element_ind'; intros s vs Hvs.
  - cbn [dfs] in Hvs. apply Forall2_cons_inv_l in Hvs as (v & vs' & Hv & Hnil & ->).
    apply Forall2_nil_inv_l in Hnil as ->.
    cbn [BuilderTree.element_leafs each_view]. unfold Builder._leafs, _immutable.
    pose proof (copy_spec s b) as Hcopy. rewrite Hv in Hcopy.
    change (bind (vconsume v) _ (st_graph s)) with
      (bind (ret v) (λ v, x <- vconsume v ;; xs <- ret [] ;; ret (x :: xs)) (st_graph s)).
    eapply returns_bind; [done|exact Hcopy|].
    intros c s1 v1 Hext1 _ [Hv1 Hc].
    eapply returns_bind; [reflexivity|by apply consume_spec|].
    intros r s2 v2 Hext2 _ [Hv2 Hr].
    split; [done|]. split; [done|]. cbn.
    split; [by repeat constructor|]. split; [by repeat constructor|].
    apply NoDup_singleton.
  - rewrite element_leafs_tree. cbn [dfs] in Hvs.
    revert s vs Hvs. induction IH as [|e bs IHe _ IHbs]; intros s vs Hvs.
    + cbn in Hvs. apply Forall2_nil_inv_l in Hvs as ->. cbn.
      split; [done|]. split; [done|]. cbn. split; [constructor|]. split; constructor.
    + cbn [fmap list_fmap concat] in Hvs.
      apply Forall2_app_inv_l in Hvs as (vs1 & vs2 & Hvs1 & Hvs2 & ->).
      cbn [leafs_loop]. rewrite each_view_app.
      eapply returns_bind; [done|by apply IHe|].
      intros xs s1 ws1 Hext1 _ (Hxs & Hfresh1 & Hnd1).
      eapply returns_bind; [done|apply IHbs; by eapply views_extend|].
      intros ys s2 ws2 Hext2 Hext12 (Hys & Hfresh2 & Hnd2).
      split; [done|]. split; [done|]. cbn.
      split; [|split].
      * apply Forall2_app; [|done]. by eapply views_extend.
      * apply Forall_app. split; [done|].
        eapply Forall_impl; [exact Hfresh2|]. intros l Hl. by apply (extends_dom s s1).
      * apply NoDup_app. split; [done|]. split; [|done].
        intros l Hl1 Hl2. rewrite Forall_forall in Hfresh2. apply (Hfresh2 l Hl2).
        rewrite list_elem_of_lookup in Hl1. destruct Hl1 as [i Hi].
        destruct (Forall2_lookup_l _ _ _ _ _ Hxs Hi) as (w & _ & Hw).
        by eapply view_dom.
Qed.

End Leafs.

Lemma add_loop_spec s d ls : ∀ vs s1 acc_t acc_m,
  d ∉ dom (st_dicts s) → extends s s1 → st_dicts s1 !! d = Some acc_m →
  Forall2 (λ l v, view s l = Some v) ls vs →
  returns (λ _ s' t t', t = t' ∧ st_dicts s' !! d = Some (merge_views acc_m vs)) s
    (_add_builders_loop d acc_t ls s1) (sum_views acc_t vs (st_graph s1)).
Proof.
  induction ls as [|l ls IH]; intros vs s1 acc_t acc_m Hd Hext Hacc Hvs.
  - apply Forall2_nil_inv_l in Hvs as ->. split; [done|]. split; [done|]. by split.
  - apply Forall2_cons_inv_l in Hvs as (v & vs' & Hv & Hvs & ->).
    destruct (view_inv _ _ _ (view_extends _ _ _ _ Hext Hv)) as (dl & Hol & Hdl).
    assert (dl ≠ d) as Hne.
    { intros ->. apply Hd. destruct (view_inv _ _ _ Hv) as (dl' & Hol' & Hdl').
      rewrite (extends_objs _ _ _ _ Hext Hol') in Hol. injection Hol as <-.
      apply elem_of_dom. eauto. }
    remember (sum_views _ _ _) as spec eqn:Hspec. cbn [sum_views] in Hspec.
    unfold merge_views in *. cbn [foldl].
    apply returns_run. cbn [_add_builders_loop]. wp_run.
    assert (∀ t' g',
              returns (λ _ s' t t', t = t' ∧
                st_dicts s' !! d = Some (foldl (λ acc v, v.2 ∪ acc) (v.2 ∪ acc_m) vs')) s
                (_add_builders_loop d t' ls
                   (mkState (st_objs s1) (<[d:=v.2 ∪ acc_m]> (st_dicts s1)) g'))
                (sum_views t' vs' g')) as Hrec.
    { intros t' g'. apply IH; [done|solve_extends| |done].
      red_state. by rewrite lookup_insert_eq. }
    destruct acc_t as [|a].
    + unfold bind, ret in Hspec. wp_run. rewrite Hspec. apply run_returns, Hrec.
    + unfold bind in Hspec. wp_run. intros r g1 Hc. rewrite Hc in Hspec.
      destruct r as [t'|e].
      * wp_run. rewrite Hspec. apply run_returns, Hrec.
      * rewrite Hspec. split; [solve_extends|]. by split.
Qed.

Lemma add_builders_spec s ls vs :
  Forall2 (λ l v, view s l = Some v) ls vs →
  returns_view s (_add_builders ls s) (add_views vs (st_graph s)).
Proof.
  intros Hvs. unfold _add_builders, add_views.
  pose proof (is_fresh (dom (st_dicts s))) as Hd.
  set (d := fresh (dom (st_dicts s))) in *.
  apply returns_run. wp_step. wp_step. fold d.
  apply run_returns.
  eapply returns_bind
    with (s := mkState (st_objs s) (<[d:=∅]> (st_dicts s)) (st_graph s)); [reflexivity| |].
  - apply (add_loop_spec s d); [done|solve_extends| |done].
    red_state. by rewrite lookup_insert_eq.
  - intros t s1 t' Hext1 _ [<- Hm]. apply returns_run. wp_run.
    pose proof (is_fresh (dom (st_objs s1))) as Hl.
    apply (extends_dom s s1 _ Hext1) in Hl.
    split; [solve_extends|]. split; [done|]. split; [solve_view|done].
Qed.

(** *** The fan-in layer *)

Lemma tree_connect_layer_spec s tree vs size fn name bias bn :
  Forall2 (λ l v, view s l = Some v) (dfs (ABuilderTree tree)) vs →
  returns_view s (BuilderTree.connect_layer tree size fn name bias bn s)
    (fan_in_view vs size fn name bias bn (st_graph s)).
Proof.
  intros Hvs. unfold BuilderTree.connect_layer, fan_in_view, BuilderTree._leafs.
  change (_immutable ?f tree s) with (f tree s). cbv beta.
  eapply returns_bind; [reflexivity| |].
  - apply element_leafs_spec; [|done].
    intros s0 s1 l v Hext Hl Hv.
    pose proof (connect_weights_spec s1 l size None None) as Hw. rewrite Hv in Hw.
    by apply (returns_view_weaken s0 s1).
  - intros ls s1 ws Hext1 _ (Hws & Hfresh & _).
    eapply returns_bind; [done|by apply add_builders_spec|].
    intros l2 s2 v2 Hext2 Hext12 [Hv2 Hl2].
    assert (l2 ∉ dom (st_objs s)) as Hl2' by by apply (extends_dom s s1).
    destruct bias.
    + pose proof (connect_bias_spec s2 l2 None bn) as Hb. rewrite Hv2 in Hb.
      eapply returns_bind; [done|exact Hb|].
      intros l3 s3 v3 Hext3 Hext23 [Hv3 Hl3].
      apply apply_tail_spec; [done| |done]. by apply (extends_dom s s2).
    + by apply apply_tail_spec.
Qed.

(** A method with a functional reading keeps the store. *)
Lemma spec_keeps_new s0 s (m : M loc) (vm : view_of → V view_of) self :
  extends s0 s →
  match view s self with
  | Some v => returns_view s (m s) (vm v (st_graph s))
  | None => m s = (Raise InvalidRef, s)
  end →
  keeps_new s0 m s.
Proof.
  intros Hext H. unfold keeps_new, wp. destruct (view s self) as [v|].
  - destruct H as (H1 & _ & H3). split; [by etrans|].
    intros l Hl. rewrite Hl in H3. destruct (vm v (st_graph s)).1; [|done].
    destruct H3 as [_ H3]. by apply (extends_dom s0 s).
  - rewrite H. by split.
Qed.

Lemma copy_keeps s0 s self : extends s0 s → keeps_new s0 (Builder.copy self) s.
Proof. intros. apply (spec_keeps_new _ _ _ (λ v, ret v) self); [done|apply copy_spec]. Qed.

Lemma connect_weights_keeps s0 s self size name wn :
  extends s0 s → keeps_new s0 (Builder.connect_weights self size name wn) s.
Proof.
  intros. apply (spec_keeps_new _ _ _ (λ v, weights_view v size name wn) self); [done|].
  apply connect_weights_spec.
Qed.

Lemma connect_bias_keeps s0 s self name bn :
  extends s0 s → keeps_new s0 (Builder.connect_bias self name bn) s.
Proof.
  intros. apply (spec_keeps_new _ _ _ (λ v, bias_view v name bn) self); [done|].
  apply connect_bias_spec.
Qed.

Lemma connect_layer_keeps s0 s self size fn name wn bias bn :
  extends s0 s → keeps_new s0 (Builder.connect_layer self size fn name wn bias bn) s.
Proof.
  intros.
  apply (spec_keeps_new _ _ _ (λ v, layer_view v size fn name wn bias bn) self); [done|].
  apply connect_layer_spec.
Qed.

Lemma map_keeps s0 s self fn : extends s0 s → keeps_new s0 (Builder.map self fn) s.
Proof.
  intros. apply (spec_keeps_new _ _ _ (λ v, map_view v fn) self); [done|]. apply map_spec.
Qed.

Lemma then_keeps s0 s self (fn : loc → M element) :
  extends s0 s → (∀ c s1, extends s0 s1 → keeps s0 (fn c) s1) →
  keeps s0 (Builder.then_ self fn) s.
Proof.
  intros Hext Hfn. unfold Builder.then_, _immutable.
  eapply keeps_new_bind; [by apply copy_keeps|]. intros c s1 H1 _. by apply Hfn.
Qed.

Lemma branch_keeps s0 s self (fn : loc → M (list element)) :
  extends s0 s → (∀ c s1, extends s0 s1 → keeps s0 (fn c) s1) →
  keeps s0 (Builder.branch self fn) s.
Proof.
  intros Hext Hfn. unfold Builder.branch, _immutable.
  eapply keeps_new_bind; [by apply copy_keeps|]. intros c s1 H1 _.
  eapply keeps_bind; [by apply Hfn|]. intros bs s2 H2. by apply keeps_ret.
Qed.

Lemma element_leafs_keeps {A} (consume : loc → M A) e :
  (∀ s0 l s1, extends s0 s1 → keeps s0 (consume l) s1) →
  ∀ s0 s, extends s0 s → keeps s0 (BuilderTree.element_leafs e consume) s.
Proof.
  intros Hc. induction e as [b|bs IH] using element_ind'; intros s0 s Hext.
  - cbn [BuilderTree.element_leafs]. unfold Builder._leafs, _immutable.
    eapply keeps_new_bind; [by apply copy_keeps|]. intros c s1 H1 _.
    eapply keeps_bind; [by apply Hc|]. intros r s2 H2. by apply keeps_ret.
  - unfold keeps, wp. rewrite element_leafs_tree.
    change (keeps s0 (leafs_loop consume bs) s).
    revert s Hext. induction IH as [|e bs IHe _ IHbs]; intros s Hext; [done|].
    cbn [leafs_loop].
    eapply keeps_bind; [by apply IHe|]. intros xs s1 H1.
    eapply keeps_bind; [by apply IHbs|]. intros ys s2 H2. by apply keeps_ret.
Qed.

Lemma add_loop_keeps s0 d ls : ∀ t s,
  d ∉ dom (st_dicts s0) → extends s0 s → keeps s0 (_add_builders_loop d t ls) s.
Proof.
  induction ls as [|l ls IH]; intros t s Hd Hext; [done|].
  unfold keeps. cbn [_add_builders_loop]. wp_run.
  destruct (st_objs s !! l) as [b|] eqn:Hb; [|done]. wp_run.
  assert (∀ t' s', st_objs s' = st_objs s → st_dicts s' = st_dicts s →
    wp (bvs <- get_variables l;; m <- get_dict bvs;; dict_update d m;;
        _add_builders_loop d t' ls) (λ _ s'', extends s0 s'') s') as Hrest.
  { intros t' s' Ho Hdd.
    assert (extends s0 s') as Hext' by by apply (extends_same s0 s).
    assert (st_objs s' !! l = Some b) as Hb' by by rewrite Ho.
    wp_run.
    destruct (st_dicts s' !! variables b) as [m|] eqn:Hm; [|done]. wp_run.
    destruct (st_dicts s' !! d) as [md|] eqn:Hmd; [|done]. wp_run.
    apply IH; [done|solve_extends]. }
  destruct t as [|a].
  - wp_step. by apply Hrest.
  - wp_step. intros r g Hc.
    destruct r as [t'|e]; [by apply Hrest|solve_extends].
Qed.

Lemma add_builders_keeps s0 s ls : extends s0 s → keeps_new s0 (_add_builders ls) s.
Proof.
  intros Hext. unfold keeps_new, _add_builders. wp_step. wp_step.
  pose proof (is_fresh (dom (st_dicts s))) as Hd.
  set (d := fresh (dom (st_dicts s))) in *.
  set (s1 := mkState _ _ _).
  assert (extends s s1) as Hext1 by (subst s1; solve_extends).
  pose proof (add_loop_keeps s d ls PyNone s1 Hd Hext1) as Hloop.
  wp_step. unfold keeps, wp in Hloop. unfold wp at 1.
  destruct (_add_builders_loop d PyNone ls s1) as [[t|e] s2]; cbn [fst snd] in *.
  - wp_run. pose proof (is_fresh (dom (st_objs s2))) as Hl.
    assert (extends s0 s2) as H02 by by etrans.
    apply (extends_dom s0 s2 _ H02) in Hl.
    split; [solve_extends|]. by intros l [= <-].
  - split; [by etrans|done].
Qed.

Lemma apply_tail_keeps s0 s l fn name :
  extends s0 s → l ∉ dom (st_objs s0) →
  keeps_new s0 (match fn with Some fn => Builder.apply_fn l fn name | None => ret () end ;;
                ret l) s.
Proof.
  intros Hext Hl. unfold keeps_new. destruct fn as [fn|].
  - unfold Builder.apply_fn. wp_run.
    destruct (st_objs s !! l) as [b|] eqn:Hb; [|by split]. wp_run.
    intros r g Hc. destruct r as [t'|e]; [|split; [solve_extends|done]].
    wp_run. split; [solve_extends|]. by intros ? [= <-].
  - wp_run. split; [done|]. by intros ? [= <-].
Qed.

Lemma tree_connect_layer_keeps s0 s tree size fn name bias bn :
  extends s0 s → keeps_new s0 (BuilderTree.connect_layer tree size fn name bias bn) s.
Proof.
  intros Hext. unfold BuilderTree.connect_layer, BuilderTree._leafs.
  change (_immutable ?f tree) with (bind (ret tree) f).
  unfold keeps_new. wp_step. wp_step. wp_step.
  apply (wp_keeps s0).
  { apply element_leafs_keeps; [|done]. intros s0' l s1 H1.
    by apply keeps_new_keeps, connect_weights_keeps. }
  intros [ls|e] s1 H1; [|by split]. wp_step.
  apply (wp_keeps_new s0); [by apply add_builders_keeps|].
  intros [l|e] s2 H2 Hl; [|by split]. specialize (Hl l eq_refl).
  destruct bias.
  - wp_step. apply (wp_keeps_new s0); [by apply connect_bias_keeps|].
    intros [l'|e] s3 H3 Hl'; [|by split]. by apply apply_tail_keeps, Hl'.
  - wp_step. wp_step. by apply apply_tail_keeps.
Qed.

Lemma eval_list_keeps es :
  Forall (λ e, ∀ env s0 s, extends s0 s → keeps s0 (eval env e) s) es →
  ∀ env s0 s, extends s0 s → keeps s0 (eval_list env es) s.
Proof.
  induction 1 as [|e es He _ IH]; intros env s0 s Hext; [done|].
  cbn [eval_list]. eapply keeps_bind; [by apply He|]. intros x s1 H1.
  eapply keeps_bind; [by apply IH|]. intros xs s2 H2. by apply keeps_ret.
Qed.

Lemma on_builder_keeps {A} s0 s r (method : loc → M A) :
  extends s0 s → (∀ b, keeps s0 (method b) s) → keeps s0 (on_builder r method) s.
Proof. intros Hext H. destruct r; [apply H|done]. Qed.

(** Whatever a program over the public interface does, every object and
    every dict that existed before it ran is as it was. *)
Lemma eval_keeps e : ∀ env s0 s, extends s0 s → keeps s0 (eval env e) s.
Proof.
  induction e using expr_ind'; intros env s0 s Hext.
  - cbn [eval]. by destruct (env !! i).
  - cbn [eval]. unfold builder. eapply keeps_bind.
    + unfold keeps. wp_run. apply extends_obj; [|solve_extends].
      apply (extends_dom s0 s); [done|apply is_fresh].
    + intros. by apply keeps_ret.
  - change (eval env (EBranches es)) with (xs <- eval_list env es ;; ret (branches xs)).
    eapply keeps_bind; [by apply eval_list_keeps|]. intros. by apply keeps_ret.
  - cbn [eval]. eapply keeps_bind; [by apply IHe|]. intros r s1 H1.
    eapply keeps_bind; [|intros; by apply keeps_ret].
    apply on_builder_keeps; [done|]. intros b.
    by apply keeps_new_keeps, connect_weights_keeps.
  - cbn [eval]. eapply keeps_bind; [by apply IHe|]. intros r s1 H1.
    eapply keeps_bind; [|intros; by apply keeps_ret].
    apply on_builder_keeps; [done|]. intros b.
    by apply keeps_new_keeps, connect_bias_keeps.
  - cbn [eval]. eapply keeps_bind; [by apply IHe|]. intros r s1 H1.
    eapply keeps_bind; [|intros; by apply keeps_ret].
    apply on_builder_keeps; [done|]. intros b.
    by apply keeps_new_keeps, connect_layer_keeps.
  - cbn [eval]. eapply keeps_bind; [by apply IHe|]. intros r s1 H1.
    eapply keeps_bind; [|intros; by apply keeps_ret].
    apply on_builder_keeps; [done|]. intros b.
    by apply keeps_new_keeps, map_keeps.
  - cbn [eval]. eapply keeps_bind; [by apply IHe1|]. intros r s1 H1.
    apply on_builder_keeps; [done|]. intros b.
    apply then_keeps; [done|]. intros c s2 H2. by apply IHe2.
  - change (eval env (EBranch e bodies)) with
      (r <- eval env e ;;
       on_builder r (λ b, Builder.branch b (λ c, eval_list (ABuilder c :: env) bodies))).
    eapply keeps_bind; [by apply IHe|]. intros r s1 H1.
    apply on_builder_keeps; [done|]. intros b.
    apply branch_keeps; [done|]. intros c s2 H2. by apply eval_list_keeps.
  - cbn [eval]. eapply keeps_bind; [by apply IHe|]. intros r s1 H1.
    eapply keeps_bind.
    + apply element_leafs_keeps; [|done]. intros. by apply keeps_ret.
    + intros ls s2 H2. by destruct (ls !! i).
  - cbn [eval]. eapply keeps_bind; [by apply IHe|]. intros r s1 H1.
    eapply keeps_bind; [|intros; by apply keeps_ret].
    destruct r; [done|]. by apply keeps_new_keeps, tree_connect_layer_keeps.
Qed.

Lemma run_keeps script : ∀ env s0 s, extends s0 s → keeps s0 (run env script) s.
Proof.
  induction script as [|e script IH]; intros env s0 s Hext; [done|].
  cbn [run]. eapply keeps_bind; [by apply eval_keeps|]. intros x s1 H1. by apply IH.
Qed.

End Methods.

(** ** The claims *)

Section Claims.
Context {C : Collaborator}.

Lemma returns_view_observe s out spec :
  returns_view s out spec →
  observe out = (match spec.1 with Ok v => Ok (Some v) | Raise e => Raise e end, spec.2).
Proof.
  intros (_ & Hg & Hr). unfold observe. rewrite Hg.
  destruct out as [[l|e] s'], spec as [[v|e'] g]; cbn [fst snd] in *; try done.
  - destruct Hr as [-> _]. done.
  - by subst.
Qed.

Lemma returns_view_ok s (m : M loc) spec v g :
  returns_view s (m s) spec → spec = (Ok v, g) →
  ∃ l s', m s = (Ok l, s') ∧ view s' l = Some v ∧ (l ∉ dom (st_objs s)) ∧
          extends s s' ∧ st_graph s' = g.
Proof.
  intros (He & Hg & Hr) ->. destruct (m s) as [[l|e] s']; cbn [fst snd] in *; [|done].
  destruct Hr as [? ?]. by exists l, s'.
Qed.

Lemma returns_view_raise s (m : M loc) spec e g :
  returns_view s (m s) spec → spec = (Raise e, g) →
  ∃ s', m s = (Raise e, s') ∧ extends s s' ∧ st_graph s' = g.
Proof.
  intros (He & Hg & Hr) ->. destruct (m s) as [[l|e'] s']; cbn [fst snd] in *; [done|].
  subst. by exists s'.
Qed.

Lemma layer_by_steps_spec s n size fn name wn bias bn :
  match view s n with
  | Some v => returns_view s (layer_by_steps n size fn name wn bias bn s)
                (layer_view v size fn name wn bias bn (st_graph s))
  | None => layer_by_steps n size fn name wn bias bn s = (Raise InvalidRef, s)
  end.
Proof.
  pose proof (connect_weights_spec s n size None wn) as Hw.
  unfold layer_by_steps, layer_view.
  destruct (view s n) as [v|] eqn:Hv; [|unfold bind; by rewrite Hw].
  eapply returns_bind; [reflexivity|exact Hw|].
  intros l1 s1 v1 Hext1 _ [Hv1 Hl1].
  assert (∀ l2 s2 v2, extends s s2 → view s2 l2 = Some v2 → l2 ∉ dom (st_objs s) →
    returns_view s
      (match fn with Some fn => Builder.map l2 (λ t, fn t name) | None => ret l2 end s2)
      (match fn with Some fn => apply_view v2 fn name | None => ret v2 end (st_graph s2)))
    as Htail.
  { intros l2 s2 v2 Hext2 Hv2 Hl2. destruct fn as [fn|].
    - pose proof (map_spec s2 l2 (λ t, fn t name)) as Hm. rewrite Hv2 in Hm.
      by apply (returns_view_weaken s s2).
    - split; [done|]. split; [done|]. by split. }
  destruct bias.
  - pose proof (connect_bias_spec s1 l1 None bn) as Hb. rewrite Hv1 in Hb.
    eapply returns_bind; [done|exact Hb|].
    intros l2 s2 v2 Hext2 Hext12 [Hv2 Hl2]. apply Htail; [done|done|].
    by apply (extends_dom s s1).
  - change (bind (ret l1) ?k s1) with (k l1 s1).
    change (bind (ret v1) ?k (st_graph s1)) with (k v1 (st_graph s1)).
    by apply Htail.
Qed.

(** C5.  For every Node, [connect_layer] and the composition of
    [connect_weights], then [connect_bias] when [bias] is set, then the
    activation applied with [name] when one is given, made as separate
    calls, are observed alike: the same exception or a Builder with the same
    value and the same parameter mapping, and the same graph. *)
Theorem connect_layer_is_composition s n size fn name wn bias bn :
  observe (Builder.connect_layer n size fn name wn bias bn s) =
  observe (layer_by_steps n size fn name wn bias bn s).
Proof.
  pose proof (connect_layer_spec s n size fn name wn bias bn) as H1.
  pose proof (layer_by_steps_spec s n size fn name wn bias bn) as H2.
  destruct (view s n) as [v|].
  - by rewrite (returns_view_observe _ _ _ H1), (returns_view_observe _ _ _ H2).
  - by rewrite H1, H2.
Qed.

Ltac run_views H :=
  unfold layer_view, weights_view, bias_view, apply_view, map_view, matmul, add, tf,
    bind, ret, raise, lift_result in H;
  cbn beta iota delta [fst snd] in H;
  repeat (case_match; try done); simplify_eq.

Lemma layer_view_params v size fn name wn bias bn g v' g' :
  layer_view v size fn name wn bias bn g = (Ok v', g') →
  ∃ d w g1, dim1 v.1 = Ok d ∧ tf_Variable [d; size] wn g = (inr w, g1) ∧
    if bias then
      ∃ d' b g2 g3, tf_Variable [d'] bn g2 = (inr b, g3) ∧
        v'.2 = <[name_or bn (tensor_name b) := b]> (<[name_or wn (tensor_name w) := w]> v.2)
    else v'.2 = <[name_or wn (tensor_name w) := w]> v.2.
Proof.
  intros H. destruct v as [t m]. destruct bias, fn as [fn|]; run_views H;
    cbn [fst snd]; eauto 12.
Qed.

(** C6.  When [connect_layer] returns, the parameter mapping of the result
    is the receiver's with the weight inserted and then, when [bias] is set,
    the bias: one parameter created by the framework for each.  When the
    names chosen for them are not in the receiver's mapping and differ from
    each other, the result's mapping is a strict superset with exactly two
    new entries when [bias] is set, exactly one otherwise. *)
Theorem connect_layer_parameters s n t m k fn name wn bias bn n' s' :
  view s n = Some (t, m) →
  Builder.connect_layer n k fn name wn bias bn s = (Ok n', s') →
  ∃ t' m' d w g1,
    view s' n' = Some (t', m') ∧
    dim1 t = Ok d ∧ tf_Variable [d; k] wn (st_graph s) = (inr w, g1) ∧
    let wk := name_or wn (tensor_name w) in
    if bias then
      ∃ d' b g2 g3, tf_Variable [d'] bn g2 = (inr b, g3) ∧
        let bk := name_or bn (tensor_name b) in
        m' = <[bk := b]> (<[wk := w]> m) ∧
        (wk ∉ dom m → bk ∉ dom m → bk ≠ wk →
           m ⊂ m' ∧ size m' = size m + 2 ∧ dom m' = {[wk; bk]} ∪ dom m)
    else
      m' = <[wk := w]> m ∧
      (wk ∉ dom m → m ⊂ m' ∧ size m' = size m + 1 ∧ dom m' = {[wk]} ∪ dom m).
Proof.
  intros Hv Hrun.
  pose proof (connect_layer_spec s n k fn name wn bias bn) as Hspec. rewrite Hv in Hspec.
  destruct Hspec as (_ & _ & Hr). rewrite Hrun in Hr. cbn [fst snd] in Hr.
  destruct (layer_view (t, m) k fn name wn bias bn (st_graph s)) as [[[t' m']|e] g'] eqn:Hl;
    [|done].
  destruct Hr as [Hv' _].
  destruct (layer_view_params _ _ _ _ _ _ _ _ _ _ Hl) as (d & w & g1 & Hd & Hw & Hm).
  exists t', m', d, w, g1. split; [done|]. split; [done|]. split; [done|].
  cbn [fst snd] in *. destruct bias.
  - destruct Hm as (d' & b & g2 & g3 & Hb & ->). exists d', b, g2, g3.
    split; [done|]. split; [done|]. intros Hwk Hbk Hne.
    apply not_elem_of_dom in Hwk, Hbk.
    assert (<[name_or wn (tensor_name w):=w]> m !! name_or bn (tensor_name b) = None) as Hbk'
      by by rewrite lookup_insert_ne.
    split; [|split].
    + apply (strict_trans_l _ (<[name_or wn (tensor_name w):=w]> m));
        [by apply insert_subset|by apply insert_subseteq].
    + rewrite !map_size_insert_None by done. lia.
    + rewrite !dom_insert_L. set_solver.
  - subst m'. split; [done|]. intros Hwk. apply not_elem_of_dom in Hwk.
    split; [by apply insert_subset|]. split.
    + rewrite map_size_insert_None by done. lia.
    + by rewrite dom_insert_L.
Qed.

(** C4 (amended).  On a Node whose value has shape [[m, n]],
    [connect_weights] has the framework create one parameter of shape
    [[n, size]], multiplies the receiver's value by it, and returns a new
    Node holding the product and the receiver's mapping with the parameter
    added.  The parameter is recorded under the name the caller gave when
    that name is a non-empty string, and under the name the framework
    generated when no name or the empty string was given. *)
Theorem connect_weights_creates s nd x mp r n size name wn w g1 y g2 :
  view s nd = Some (PyTensor x, mp) →
  get_shape x = Some [r; Some n] →
  tf_Variable [n; size] wn (st_graph s) = (inr w, g1) →
  tf_matmul x w name g1 = (inr y, g2) →
  ∃ nd' s' key,
    Builder.connect_weights nd size name wn s = (Ok nd', s') ∧
    view s' nd' = Some (PyTensor y, <[key := w]> mp) ∧
    st_graph s' = g2 ∧ nd' ≠ nd ∧ view s' nd = Some (PyTensor x, mp) ∧
    (∀ given, wn = Some given → given ≠ EmptyString → key = given) ∧
    (wn = None ∨ wn = Some EmptyString → key = tensor_name w).
Proof.
  intros Hv Hsh Hw Hy.
  pose proof (connect_weights_spec s nd size name wn) as Hspec. rewrite Hv in Hspec.
  assert (weights_view (PyTensor x, mp) size name wn (st_graph s) =
          (Ok (PyTensor y, <[name_or wn (tensor_name w) := w]> mp), g2)) as Hview.
  { unfold weights_view, matmul, tf, bind, ret, lift_result, dim1, shape_index1.
    cbn [fst snd]. rewrite Hsh. cbn. by rewrite Hw, Hy. }
  destruct (returns_view_ok _ _ _ _ _ Hspec Hview) as (nd' & s' & Hrun & Hv' & Hnew & Hext & Hg).
  exists nd', s', (name_or wn (tensor_name w)).
  split; [done|]. split; [done|]. split; [done|].
  split; [intros ->; by apply Hnew, (view_dom s nd (PyTensor x, mp))|].
  split; [by apply (view_extends s)|].
  split.
  - intros given -> Hne. unfold name_or. by rewrite decide_False.
  - by intros [-> | ->].
Qed.

(** What [int(tensor.get_shape()[1])] raises when it raises. *)
Lemma dim1_raises v e :
  dim1 v = Raise e → e = AttributeError ∨ e = IndexError ∨ e = TypeError.
Proof.
  destruct v as [|x]; cbn; [naive_solver|].
  unfold shape_index1. repeat case_match; naive_solver.
Qed.

Lemma dim1_width v : (∀ n, ¬ has_width v n) → ∃ e, dim1 v = Raise e.
Proof.
  intros Hno. destruct (dim1 v) as [n|e] eqn:Hd; [|by eauto].
  exfalso. apply (Hno n). destruct v as [|x]; [done|].
  cbn in Hd. unfold shape_index1 in Hd. repeat case_match; simplify_eq.
  by eexists _, _.
Qed.

(** C1 (amended).  On a Node whose value exposes no known second dimension
    (no tensor at all, a rank that is unknown or below two, or an unknown
    second extent), [connect_weights] and [connect_bias] fail at that call,
    before any parameter is created and with every existing object as it
    was.  The exception is the one shape introspection raises, an
    [AttributeError], [IndexError] or [TypeError]; it is not a
    [ShapeError]. *)
Theorem connect_without_width_fails s nd v :
  view s nd = Some v → (∀ n, ¬ has_width v.1 n) →
  ∃ e, (e = AttributeError ∨ e = IndexError ∨ e = TypeError) ∧ e ≠ ShapeError ∧
    (∀ size name wn, ∃ s',
       Builder.connect_weights nd size name wn s = (Raise e, s') ∧
       extends s s' ∧ st_graph s' = st_graph s) ∧
    (∀ name bn, ∃ s',
       Builder.connect_bias nd name bn s = (Raise e, s') ∧
       extends s s' ∧ st_graph s' = st_graph s).
Proof.
  intros Hv Hno. destruct (dim1_width _ Hno) as [e He]. exists e.
  pose proof (dim1_raises _ _ He) as Hcases.
  split; [done|]. split; [naive_solver|]. split.
  - intros size name wn.
    pose proof (connect_weights_spec s nd size name wn) as Hspec. rewrite Hv in Hspec.
    apply (returns_view_raise _ _ _ _ _ Hspec).
    unfold weights_view, bind, lift_result. by rewrite He.
  - intros name bn.
    pose proof (connect_bias_spec s nd name bn) as Hspec. rewrite Hv in Hspec.
    apply (returns_view_raise _ _ _ _ _ Hspec).
    unfold bias_view, bind, lift_result. by rewrite He.
Qed.

(** C9 (amended).  [_leafs] of a Node yields exactly one element: a copy of
    the receiver, that is a new Builder, distinct from the receiver, with
    the receiver's value and a new dict equal to the receiver's mapping.
    Each invocation yields a new copy, and the receiver is as it was. *)
Theorem builder_leafs_yields_copy s nd v :
  view s nd = Some v →
  ∃ c s', Builder._leafs nd ret s = (Ok [c], s') ∧
    c ≠ nd ∧ (c ∉ dom (st_objs s)) ∧ view s' c = Some v ∧ view s' nd = Some v ∧
    (∀ b b', st_objs s' !! nd = Some b → st_objs s' !! c = Some b' →
             variables b' ≠ variables b) ∧
    ∃ c' s'', Builder._leafs nd ret s' = (Ok [c'], s'') ∧
      c' ≠ c ∧ c' ≠ nd ∧ view s'' c' = Some v.
Proof.
  intros Hv.
  assert (∀ s1, view s1 nd = Some v →
    ∃ c s', Builder._leafs nd ret s1 = (Ok [c], s') ∧ (c ∉ dom (st_objs s1)) ∧
      extends s1 s' ∧ view s' c = Some v ∧
      ∀ b', st_objs s' !! c = Some b' → variables b' ∉ dom (st_dicts s1)) as Hone.
  { intros s1 Hv1. unfold Builder._leafs.
    assert (wp (_immutable (λ builder, r <- ret builder;; ret [r]) nd)
      (λ r s', ∃ c, r = Ok [c] ∧ (c ∉ dom (st_objs s1)) ∧ extends s1 s' ∧
         view s' c = Some v ∧
         ∀ b', st_objs s' !! c = Some b' → variables b' ∉ dom (st_dicts s1)) s1) as Hwp.
    { wp_step. wp_step. apply wp_copy. rewrite Hv1.
      intros l d s' Hext Hl Hd Hol Hdl Hg. wp_run. exists l.
      split; [done|]. split; [done|]. split; [done|].
      split; [destruct v; by apply (view_lookup _ _ _ _ d)|].
      intros b'. rewrite Hol. by intros [= <-]. }
    unfold wp in Hwp. destruct Hwp as (c & Hc & Hrest).
    exists c, (_immutable (λ builder, r <- ret builder;; ret [r]) nd s1).2.
    split; [|done]. rewrite <-Hc. by destruct (_immutable _ nd s1). }
  destruct (Hone s Hv) as (c & s' & Hrun & Hc & Hext & Hvc & Hdict).
  assert (view s' nd = Some v) as Hv' by by apply (view_extends s).
  exists c, s'. split; [done|].
  split; [intros ->; by apply Hc, (view_dom s nd v)|].
  split; [done|]. split; [done|]. split; [done|]. split.
  - intros b b' Hb Hb' Heq. apply (Hdict b' Hb'). rewrite Heq.
    destruct (view_inv _ _ _ Hv) as (d & Ho & Hd).
    rewrite (extends_objs _ _ _ _ Hext Ho) in Hb. injection Hb as <-.
    apply elem_of_dom. eauto.
  - destruct (Hone s' Hv') as (c' & s'' & Hrun' & Hc' & Hext' & Hvc' & _).
    exists c', s''. split; [done|].
    split; [intros ->; by apply Hc', (view_dom s' c v)|].
    split; [intros ->; by apply Hc', (view_dom s' nd v)|]. done.
Qed.

Lemma each_view_ret {A} (vs : list A) (g : graph) : each_view ret vs g = (Ok vs, g).
Proof.
  induction vs as [|v vs IH]; [done|].
  cbn [each_view]. unfold bind at 1. cbn. unfold bind at 1. by rewrite IH.
Qed.

Lemma views_exist s ls :
  Forall (λ l, is_Some (view s l)) ls → ∃ vs, Forall2 (λ l v, view s l = Some v) ls vs.
Proof.
  induction 1 as [|l ls [v Hv] _ [vs IH]]; [by exists []|].
  exists (v :: vs). by constructor.
Qed.

(** C7 (amended).  For a tree whose leaves are live Builders, [builders]
    returns a finite list with one element for each Builder met by the
    depth-first, left-to-right traversal of [branches], in that order.  The
    element is not the Builder of the tree but a copy of it: a new object,
    distinct from every existing one and from the other elements, with the
    same value and an equal parameter mapping.  The tree and its Builders
    are as they were. *)
Theorem builders_yields_copies_in_order s tree :
  Forall (λ l, is_Some (view s l)) (dfs (ABuilderTree tree)) →
  ∃ ls s',
    BuilderTree.builders tree s = (Ok ls, s') ∧
    Forall2 (λ c l, view s' c = view s l ∧ view s' l = view s l)
      ls (dfs (ABuilderTree tree)) ∧
    Forall (λ c, c ∉ dom (st_objs s)) ls ∧ NoDup ls ∧
    extends s s' ∧ st_graph s' = st_graph s.
Proof.
  intros Hlive. destruct (views_exist _ _ Hlive) as [vs Hvs].
  pose proof (element_leafs_spec ret ret) as Hspec.
  specialize (Hspec (λ s0 s1 l v Hext Hl Hv,
    conj Hext (conj eq_refl (conj Hv Hl))) (ABuilderTree tree) s vs Hvs).
  rewrite each_view_ret in Hspec. destruct Hspec as (Hext & Hg & Hr).
  unfold BuilderTree.builders, BuilderTree._leafs.
  destruct (BuilderTree.element_leafs (ABuilderTree tree) ret s) as [[ls|e] s'];
    cbn [fst snd] in *; [|done].
  destruct Hr as (Hviews & Hfresh & Hnd).
  exists ls, s'. split; [done|]. split; [|done].
  eapply Forall2_trans; [|exact Hviews|apply Forall2_flip, Hvs].
  cbn. intros c v l Hc Hl. rewrite Hc, Hl. split; [done|]. by apply (view_extends s).
Qed.

Lemma fan_in_view_nil size fn name bias bn g :
  fan_in_view [] size fn name bias bn g =
  if bias then (Raise AttributeError, g)
  else match fn with
       | Some f => apply_view (PyNone, ∅) f name g
       | None => (Ok (PyNone, ∅), g)
       end.
Proof. by destruct bias, fn. Qed.

(** C2 (amended).  On a tree with no leaves the fan-in [connect_layer]
    never raises [EmptyTreeError].  With [bias] set it fails with the
    [AttributeError] of asking the shape of the absent value, before any
    parameter is created; without [bias] and without activation it returns
    a Node whose value is [None] and whose mapping is empty; without [bias]
    and with an activation it hands [None] to the activation. *)
Theorem fan_in_without_leaves s tree size fn name bias bn :
  dfs (ABuilderTree tree) = [] →
  let out := BuilderTree.connect_layer tree size fn name bias bn s in
  out.1 ≠ Raise EmptyTreeError ∧
  (bias = true → out.1 = Raise AttributeError ∧ st_graph out.2 = st_graph s) ∧
  (bias = false → fn = None →
     ∃ l, out.1 = Ok l ∧ view out.2 l = Some (PyNone, ∅) ∧ st_graph out.2 = st_graph s) ∧
  (bias = false → ∀ f, fn = Some f →
     observe out =
       (match (f PyNone name (st_graph s)).1 with
        | inl e => Raise (TFError e)
        | inr t => Ok (Some (t, ∅))
        end, (f PyNone name (st_graph s)).2)).
Proof.
  intros Hnil. cbv zeta.
  assert (Forall2 (λ l v, view s l = Some v) (dfs (ABuilderTree tree)) []) as Hvs
    by (rewrite Hnil; constructor).
  pose proof (tree_connect_layer_spec s tree [] size fn name bias bn Hvs) as Hspec.
  rewrite fan_in_view_nil in Hspec.
  pose proof (returns_view_observe _ _ _ Hspec) as Hobs.
  destruct Hspec as (Hext & Hg & Hr).
  destruct (BuilderTree.connect_layer tree size fn name bias bn s) as [r s'].
  cbn [fst snd] in *. destruct bias.
  - cbn [fst snd] in *. destruct r as [l|e]; [done|]. subst e.
    split; [done|]. split; [done|]. split; [done|]. done.
  - split.
    { destruct fn as [f|]; [|by destruct r].
      destruct (apply_view (PyNone, ∅) f name (st_graph s)) as [[v|e0] g0] eqn:Hav;
        cbn [fst snd] in Hr; destruct r as [l|e']; try done. subst e'.
      unfold apply_view, tf, bind, ret in Hav. cbn [fst snd] in Hav.
      destruct (f PyNone name (st_graph s)) as [[e|t] g']; simplify_eq. by intros [=]. }
    split; [done|]. split.
    + intros _ ->. cbn [fst snd] in *. destruct r as [l|e]; [|done].
      destruct Hr as [Hv _]. by exists l.
    + intros _ f ->. rewrite Hobs. unfold apply_view, tf, bind, ret. cbn [fst snd].
      by destruct (f PyNone name (st_graph s)) as [[e|t] g'].
Qed.

(** C3 (amended).  For every Node and every public operation called on it
    (with programs over the public interface as the callbacks of [then] and
    [branch]), the Node object and its parameter dict are afterwards what
    they were before, whether the operation returned or raised.
    [connect_weights], [connect_bias], [connect_layer], [map] and [leaves]
    return a new Builder, distinct from the receiver and from every
    existing object; [then] returns whatever its callback returns. *)
Theorem operation_leaves_receiver s n b m env (c : call) :
  st_objs s !! n = Some b → st_dicts s !! variables b = Some m →
  let out := eval (ABuilder n :: env) (call_expr c) s in
  st_objs out.2 !! n = Some b ∧ st_dicts out.2 !! variables b = Some m ∧
  (makes_builder c = true →
     ∀ l, out.1 = Ok (ABuilder l) → l ≠ n ∧ l ∉ dom (st_objs s)).
Proof.
  intros Hb Hm out.
  assert (extends s out.2) as Hext by by apply (eval_keeps _ _ s s).
  split; [by apply (extends_objs s)|]. split; [by apply (extends_dicts s)|].
  intros Hmk l Hl.
  assert (l ∉ dom (st_objs s)) as Hnew; [|split; [|done]].
  2:{ intros ->. apply Hnew, elem_of_dom. eauto. }
  assert (∀ (m : M loc), keeps_new s m s →
    (b <- m ;; ret (ABuilder b)) s = out → l ∉ dom (st_objs s)) as Hmeth.
  { intros meth [_ Hk] Heq. apply Hk. rewrite <-Heq in Hl. unfold bind, ret in Hl.
    destruct (meth s) as [[l'|e] s']; cbn [fst snd] in *; by simplify_eq. }
  destruct c; try done.
  - eapply Hmeth; [|done]. by apply connect_weights_keeps.
  - eapply Hmeth; [|done]. by apply connect_bias_keeps.
  - eapply Hmeth; [|done]. by apply connect_layer_keeps.
  - eapply Hmeth; [|done]. by apply map_keeps.
  - destruct (copy_keeps s s n) as [_ Hk]; [done|]. apply Hk.
    subst out. unfold call_expr in Hl.
    change (eval (ABuilder n :: env) (ELeaf (EVar 0) 0) s) with
      ((ls <- (c <- Builder.copy n ;; r <- ret c ;; ret [r]) ;;
        match ls !! 0 with Some l => ret (ABuilder l) | None => raise IndexError end) s)
      in Hl.
    unfold bind, ret in Hl.
    destruct (Builder.copy n s) as [[c|e] s']; cbn in *; by simplify_eq.
Qed.

(** C10.  Two Builders made by [builder] hold the same dict object, the
    default argument of [__init__]; yet whatever program over the public
    interface is run with the first of them (and anything else) at hand,
    the second Builder and that dict are afterwards what they were. *)
Theorem default_mapping_is_never_written s0 t1 t2 m0 :
  st_dicts s0 !! default_variables = Some m0 →
  ∃ b1 b2 s1 s2,
    builder t1 s0 = (Ok b1, s1) ∧ builder t2 s1 = (Ok b2, s2) ∧ b1 ≠ b2 ∧
    st_objs s2 !! b1 = Some (mkBuilder t1 default_variables) ∧
    st_objs s2 !! b2 = Some (mkBuilder t2 default_variables) ∧
    view s2 b2 = Some (t2, m0) ∧
    ∀ env script,
      let s' := (run (ABuilder b1 :: env) script s2).2 in
      st_objs s' !! b2 = Some (mkBuilder t2 default_variables) ∧
      st_dicts s' !! default_variables = Some m0 ∧
      view s' b2 = Some (t2, m0).
Proof.
  intros Hdef.
  set (b1 := fresh (dom (st_objs s0))).
  set (s1 := mkState (<[b1 := mkBuilder t1 default_variables]> (st_objs s0))
               (st_dicts s0) (st_graph s0)).
  set (b2 := fresh (dom (st_objs s1))).
  set (s2 := mkState (<[b2 := mkBuilder t2 default_variables]> (st_objs s1))
               (st_dicts s1) (st_graph s1)).
  exists b1, b2, s1, s2.
  assert (b1 ≠ b2) as Hne.
  { intros Heq. pose proof (is_fresh (dom (st_objs s1))) as Hf. apply Hf.
    fold b2. rewrite <-Heq. subst s1. cbn [st_objs]. rewrite dom_insert_L. set_solver. }
  assert (st_objs s2 !! b2 = Some (mkBuilder t2 default_variables)) as Hb2
    by (subst s2; cbn [st_objs]; by rewrite lookup_insert_eq).
  assert (st_dicts s2 !! default_variables = Some m0) as Hd2 by done.
  split; [done|]. split; [done|]. split; [done|]. split.
  { subst s2 s1. cbn [st_objs]. rewrite lookup_insert_ne by done.
    by rewrite lookup_insert_eq. }
  split; [done|]. split; [by apply (view_lookup _ _ _ _ default_variables)|].
  intros env script s'.
  assert (extends s2 s') as Hext by by apply (run_keeps _ _ s2 s2).
  assert (st_objs s' !! b2 = Some (mkBuilder t2 default_variables)) as Hb'
    by by apply (extends_objs s2).
  assert (st_dicts s' !! default_variables = Some m0) as Hd'
    by by apply (extends_dicts s2).
  split; [done|]. split; [done|]. by apply (view_lookup _ _ _ _ default_variables).
Qed.

(** *** The fan-in layer against the specification *)

Lemma bind_unfold {S A B} (m : St S A) (k : A → St S B) s :
  bind m k s = match m s with (Ok a, s') => k a s' | (Raise e, s') => (Raise e, s') end.
Proof. done. Qed.

Lemma weights_view_leaf v size g :
  two_dimensional v.1 →
  weights_view v size None None g = (y <- leaf_connection size v ;; ret (as_view y)) g.
Proof.
  destruct v as [t m]. intros (x & r & n & Hx & Hsh). cbn [fst] in Hx. subst t.
  unfold weights_view, leaf_connection, dim1, shape_index1, matmul, lift_result.
  cbn [fst snd]. rewrite Hsh. cbn [lookup list_lookup].
  rewrite !bind_unfold. cbn beta iota.
  destruct (tf (tf_Variable [n; size] None) g) as [[w|e] g1]; [|done].
  rewrite !bind_unfold.
  by destruct (tf (tf_matmul x w None) g1) as [[y|e] g2].
Qed.

Section Laws.
Context {L : CollaboratorLaws C}.

Lemma leaf_connection_columns v size g y g' :
  two_dimensional v.1 → leaf_connection size v g = (Ok y, g') → has_columns size y.1.
Proof.
  destruct v as [t m]. intros (x & r & n & Hx & Hsh). cbn [fst] in Hx. subst t.
  unfold leaf_connection, tf. cbn [fst snd]. rewrite Hsh. rewrite !bind_unfold.
  destruct (tf_Variable [n; size] None g) as [[e|w] g1] eqn:Hw; [done|].
  rewrite !bind_unfold.
  destruct (tf_matmul x w None g1) as [[e|c] g2] eqn:Hc; [done|].
  intros [= <- <-]. exists r. cbn [fst].
  eapply tf_matmul_shape; [exact Hc|exact Hsh|].
  by rewrite (tf_Variable_shape _ _ _ _ _ Hw).
Qed.

Lemma each_leaf_columns vs size : ∀ g ys g',
  Forall (λ v, two_dimensional v.1) vs →
  each_view (leaf_connection size) vs g = (Ok ys, g') →
  Forall (λ y, has_columns size y.1) ys ∧ length ys = length vs.
Proof.
  induction vs as [|v vs IH]; intros g ys g' Htwo Hrun.
  - injection Hrun as <- <-. by split.
  - apply Forall_cons in Htwo as [Hv Hvs]. cbn [each_view] in Hrun.
    rewrite bind_unfold in Hrun.
    destruct (leaf_connection size v g) as [[y|e] g1] eqn:Hy; [|done].
    rewrite bind_unfold in Hrun.
    destruct (each_view (leaf_connection size) vs g1) as [[ys'|e] g2] eqn:Hys; [|done].
    injection Hrun as <- <-. destruct (IH _ _ _ Hvs Hys) as [Hcols Hlen].
    split; [|by cbn; rewrite Hlen]. constructor; [|done].
    by eapply leaf_connection_columns.
Qed.

Lemma sum_in_order_columns size ys : ∀ a g t g',
  has_columns size a → Forall (has_columns size) ys →
  sum_in_order a ys g = (Ok t, g') → has_columns size t.
Proof.
  induction ys as [|y ys IH]; intros a g t g' Ha Hys Hrun.
  - by injection Hrun as <- <-.
  - apply Forall_cons in Hys as [Hy Hys]. cbn [sum_in_order] in Hrun.
    rewrite bind_unfold in Hrun. unfold tf in Hrun.
    destruct (tf_add a y None g) as [[e|c] g1] eqn:Hc; [done|].
    apply (IH c g1 t g'); [|done|done].
    destruct Ha as [r Ha], Hy as [r' Hy]. by eapply tf_add_shape.
Qed.

End Laws.

Lemma each_weights_leaf vs size : ∀ g,
  Forall (λ v, two_dimensional v.1) vs →
  each_view (λ v, weights_view v size None None) vs g =
  (ys <- each_view (leaf_connection size) vs ;; ret (as_view <$> ys)) g.
Proof.
  induction vs as [|v vs IH]; intros g Htwo; [done|].
  apply Forall_cons in Htwo as [Hv Hvs]. cbn [each_view].
  rewrite !bind_unfold. rewrite weights_view_leaf by done. rewrite !bind_unfold.
  destruct (leaf_connection size v g) as [[y|e] g1]; [|done]. cbn [ret].
  rewrite !bind_unfold. rewrite IH by done. rewrite !bind_unfold.
  by destruct (each_view (leaf_connection size) vs g1) as [[ys|e] g2].
Qed.

Lemma sum_views_in_order ys : ∀ a g,
  sum_views (PyTensor a) (as_view <$> ys) g =
  (t <- sum_in_order a ys.*1 ;; ret (PyTensor t)) g.
Proof.
  induction ys as [|y ys IH]; intros a g; [done|].
  cbn [fmap list_fmap sum_views sum_in_order as_view fst snd add].
  rewrite !bind_unfold.
  destruct (tf (tf_add a y.1 None) g) as [[c|e] g1]; [|done]. cbn [ret].
  by rewrite IH.
Qed.

Lemma merge_views_in_order ys acc :
  merge_views acc (as_view <$> ys) = merge_in_order acc ys.*2.
Proof.
  revert acc. induction ys as [|y ys IH]; intros acc; [done|].
  cbn. apply IH.
Qed.

Lemma fan_in_view_spec {L : CollaboratorLaws C} vs size fn name bias bn g :
  vs ≠ [] → Forall (λ v, two_dimensional v.1) vs →
  fan_in_view vs size fn name bias bn g = fan_in_spec vs size fn name bias bn g.
Proof.
  intros Hne Htwo. unfold fan_in_view, fan_in_spec.
  rewrite !bind_unfold, each_weights_leaf by done. rewrite bind_unfold.
  destruct (each_view (leaf_connection size) vs g) as [[ys|e] g1] eqn:Hys; [|done].
  destruct (each_leaf_columns _ _ _ _ _ Htwo Hys) as [Hcols Hlen].
  destruct ys as [|[y0 p0] ys]; [by destruct vs|].
  apply Forall_cons in Hcols as [Hy0 Hcols]. cbn [fst] in Hy0.
  assert (has_columns size y0 → ∀ t g2, sum_in_order y0 ys.*1 g1 = (Ok t, g2) →
          has_columns size t) as Hsumcols.
  { intros _ t g2. apply sum_in_order_columns; [done|]. by apply Forall_fmap. }
  cbn [ret fmap list_fmap]. unfold add_views. cbn [sum_views as_view fst snd].
  rewrite !bind_unfold. cbn [ret]. rewrite sum_views_in_order, bind_unfold.
  destruct (sum_in_order y0 ys.*1 g1) as [[t|e] g2] eqn:Hsum; [|done].
  destruct (Hsumcols Hy0 t g2 eq_refl) as [r Ht].
  cbn [ret merge_views foldl snd]. rewrite (right_id_L ∅ (∪)).
  change ((as_view (y0, p0)).2) with p0.
  change (foldl _ p0 (as_view <$> ys)) with (merge_views p0 (as_view <$> ys)).
  rewrite merge_views_in_order.
  destruct bias.
  - unfold bias_view, dim1, shape_index1, add, lift_result. cbn [fst snd].
    rewrite Ht. cbn [lookup list_lookup]. rewrite !bind_unfold.
    destruct (tf (tf_Variable [size] bn) g2) as [[b|e] g3]; [|done].
    rewrite !bind_unfold.
    destruct (tf (tf_add t b None) g3) as [[c|e] g4]; [|done].
    cbn [ret]. by destruct fn.
  - cbn [ret]. by destruct fn.
Qed.

Lemma tf_raises {A} (f : graph → (tf_error + A) * graph) g e g' :
  tf f g = (Raise e, g') → ∃ e', e = TFError e'.
Proof. unfold tf. destruct (f g) as [[e'|a] g1]; intros [=]; eauto. Qed.

Lemma leaf_connection_raises v size g e g' :
  two_dimensional v.1 → leaf_connection size v g = (Raise e, g') → ∃ e', e = TFError e'.
Proof.
  destruct v as [t m]. intros (x & r & n & Hx & Hsh). cbn [fst] in Hx. subst t.
  unfold leaf_connection. cbn [fst snd]. rewrite Hsh. rewrite !bind_unfold.
  destruct (tf (tf_Variable [n; size] None) g) as [[w|e1] g1] eqn:Hw.
  - rewrite !bind_unfold.
    destruct (tf (tf_matmul x w None) g1) as [[y|e2] g2] eqn:Hy; [done|].
    intros [= <- <-]. by eapply tf_raises.
  - intros [= <- <-]. by eapply tf_raises.
Qed.

Lemma each_leaf_raises vs size : ∀ g e g',
  Forall (λ v, two_dimensional v.1) vs →
  each_view (leaf_connection size) vs g = (Raise e, g') → ∃ e', e = TFError e'.
Proof.
  induction vs as [|v vs IH]; intros g e g' Htwo Hrun; [done|].
  apply Forall_cons in Htwo as [Hv Hvs]. cbn [each_view] in Hrun.
  rewrite bind_unfold in Hrun.
  destruct (leaf_connection size v g) as [[y|e1] g1] eqn:Hy.
  - rewrite bind_unfold in Hrun.
    destruct (each_view (leaf_connection size) vs g1) as [[ys|e2] g2] eqn:Hys; [done|].
    injection Hrun as <- <-. by eapply IH.
  - injection Hrun as <- <-. by eapply leaf_connection_raises.
Qed.

Lemma sum_in_order_raises ys : ∀ a g e g',
  sum_in_order a ys g = (Raise e, g') → ∃ e', e = TFError e'.
Proof.
  induction ys as [|y ys IH]; intros a g e g' Hrun; [done|].
  cbn [sum_in_order] in Hrun. rewrite bind_unfold in Hrun.
  destruct (tf (tf_add a y None) g) as [[c|e1] g1] eqn:Hc.
  - by eapply IH.
  - injection Hrun as <- <-. by eapply tf_raises.
Qed.

Lemma fan_in_spec_raises vs size fn name bias bn g e g' :
  vs ≠ [] → Forall (λ v, two_dimensional v.1) vs →
  fan_in_spec vs size fn name bias bn g = (Raise e, g') → ∃ e', e = TFError e'.
Proof.
  intros Hne Htwo. unfold fan_in_spec. rewrite bind_unfold.
  destruct (each_view (leaf_connection size) vs g) as [[ys|e1] g1] eqn:Hys.
  2:{ intros [= <- <-]. by eapply each_leaf_raises. }
  destruct ys as [|[y0 p0] ys].
  { destruct vs as [|v vs]; [done|]. cbn [each_view] in Hys.
    rewrite bind_unfold in Hys. destruct (leaf_connection size v g) as [[y|?] ?]; [|done].
    rewrite bind_unfold in Hys.
    by destruct (each_view (leaf_connection size) vs g0) as [[?|?] ?]. }
  rewrite bind_unfold.
  destruct (sum_in_order y0 ys.*1 g1) as [[t|e2] g2] eqn:Hsum.
  2:{ intros [= <- <-]. by eapply sum_in_order_raises. }
  rewrite bind_unfold. destruct bias.
  - rewrite bind_unfold.
    destruct (tf (tf_Variable [size] bn) g2) as [[b|e3] g3] eqn:Hb.
    2:{ intros [= <- <-]. by eapply tf_raises. }
    rewrite bind_unfold.
    destruct (tf (tf_add t b None) g3) as [[c|e4] g4] eqn:Hc.
    2:{ intros [= <- <-]. by eapply tf_raises. }
    cbn [ret]. destruct fn as [f|]; [|done]. rewrite bind_unfold. cbn [fst snd].
    destruct (tf (f (PyTensor c) name) g4) as [[x|e5] g5] eqn:Hx; [done|].
    intros [= <- <-]. by eapply tf_raises.
  - cbn [ret]. destruct fn as [f|]; [|done]. rewrite bind_unfold. cbn [fst snd].
    destruct (tf (f (PyTensor t) name) g2) as [[x|e5] g5] eqn:Hx; [done|].
    intros [= <- <-]. by eapply tf_raises.
Qed.

(** C8.  On a tree with at least one leaf, all leaves holding tensors of
    shape [[m, n]] (the widths [n] may differ), over a framework that
    infers shapes, the fan-in [connect_layer] does what section 4.2
    describes: one weight of shape [[n, size]] per leaf and no bias per
    leaf, created in leaf order; the products summed in leaf order; the
    mappings merged in leaf order, later entries winning; then one bias of
    length [size] when [bias] is set, and the activation when one is given.
    It returns one new Node or raises what the framework raised, and
    leaves every existing object as it was. *)
Theorem fan_in_connect_layer {L : CollaboratorLaws C} s tree vs size fn name bias bn :
  Forall2 (λ l v, view s l = Some v) (dfs (ABuilderTree tree)) vs →
  vs ≠ [] → Forall (λ v, two_dimensional v.1) vs →
  let out := BuilderTree.connect_layer tree size fn name bias bn s in
  returns_view s out (fan_in_spec vs size fn name bias bn (st_graph s)) ∧
  (∀ e, out.1 = Raise e → ∃ e', e = TFError e').
Proof.
  intros Hvs Hne Htwo out.
  pose proof (tree_connect_layer_spec s tree vs size fn name bias bn Hvs) as Hspec.
  rewrite fan_in_view_spec in Hspec by done. split; [done|].
  intros e He. fold out in Hspec. destruct Hspec as (_ & _ & Hr). rewrite He in Hr.
  destruct (fan_in_spec vs size fn name bias bn (st_graph s)) as [[v|e'] g'] eqn:Hf;
    cbn [fst snd] in Hr; [done|]. subst e'.
  by eapply fan_in_spec_raises.
Qed.

End Claims.

(** ** The symbolic framework infers shapes *)

#[global] Instance SymTF_laws : CollaboratorLaws SymTF.collaborator.
Proof.
  split.
  - intros sh nm g w g' [= <- _]. done.
  - intros a b nm g c g' r n k H Ha Hb. cbn in *. unfold SymTF.matmul in H.
    rewrite Ha, Hb in H. destruct (decide (n = n)); [|done].
    injection H as <- _. cbn. by rewrite Ha, Hb.
  - intros a b nm g c g' r r' k H Ha Hb. cbn in *. unfold SymTF.add in H.
    rewrite Ha, Hb in H. exists r. repeat case_decide; simplify_eq; done.
Qed.

(** ** The theorems at work, and the inputs that refute the claims as stated *)

Section Instances.
Import SymTF Examples.

(** C1, refuted as stated: on a tensor of shape [[5]] both methods raise
    [IndexError], not [ShapeError]; on a tensor of shape [[2, 3, 3]], which
    is not two-dimensional either, [connect_bias] raises nothing and
    returns a Node. *)
Lemma connect_on_other_ranks_counterexample :
  ¬ two_dimensional vector ∧ ¬ two_dimensional cube ∧
  (Builder.connect_weights 0 3 None None (after_builder vector)).1 = Raise IndexError ∧
  (Builder.connect_bias 0 None None (after_builder vector)).1 = Raise IndexError ∧
  (Builder.connect_bias 0 None None (after_builder cube)).1 = Ok 1.
Proof.
  split; [by intros (t & m & n & [= <-] & [=])|].
  split; [by intros (t & m & n & [= <-] & [=])|].
  repeat split; vm_compute; reflexivity.
Qed.

Lemma connect_without_width_fails_witness :
  view (after_builder vector) 0 = Some (vector, ∅) ∧
  (∀ n, ¬ has_width vector n) ∧
  ∃ e, e ≠ ShapeError ∧
    (Builder.connect_weights 0 3 None None (after_builder vector)).1 = Raise e ∧
    (Builder.connect_bias 0 None None (after_builder vector)).1 = Raise e.
Proof.
  assert (view (after_builder vector) 0 = Some (vector, ∅)) as Hv
    by (vm_compute; reflexivity).
  assert (∀ n, ¬ has_width vector n) as Hw.
  { intros n (t & dims & Ht & Hsh & Hd). injection Ht as <-.
    injection Hsh as <-. discriminate Hd. }
  split; [exact Hv|]. split; [exact Hw|].
  destruct (connect_without_width_fails (after_builder vector) 0 (vector, ∅) Hv Hw)
    as (e & _ & Hne & Hcw & Hcb).
  exists e. split; [exact Hne|].
  destruct (Hcw 3 None None) as (s1 & H1 & _). destruct (Hcb None None) as (s2 & H2 & _).
  rewrite H1, H2. split; reflexivity.
Defined.

(** C2, refuted as stated: [tb.branches([]).connect_layer(3)] raises
    [AttributeError], and with [bias=False] it raises nothing and returns a
    Node whose value is [None]. *)
Lemma fan_in_without_leaves_counterexample :
  (BuilderTree.connect_layer [] 3 None (Some "layer") true None just_imported).1
    = Raise AttributeError ∧
  let out := BuilderTree.connect_layer [] 3 None (Some "layer") false None just_imported in
  out.1 = Ok 0 ∧ view out.2 0 = Some (PyNone, ∅).
Proof. repeat split; vm_compute; reflexivity. Qed.

Lemma fan_in_without_leaves_witness :
  dfs (ABuilderTree [ABuilderTree []; ABuilderTree [ABuilderTree []]]) = [] ∧
  (BuilderTree.connect_layer [ABuilderTree []; ABuilderTree [ABuilderTree []]]
     3 None (Some "layer") true None just_imported).1 = Raise AttributeError.
Proof.
  split; [reflexivity|].
  apply (fan_in_without_leaves just_imported
           [ABuilderTree []; ABuilderTree [ABuilderTree []]]
           3 None (Some "layer") true None eq_refl).
  reflexivity.
Defined.

(** C3, refuted as stated: [n.then(lambda b: n)] returns [n] itself. *)
Lemma then_returns_receiver_counterexample :
  (Builder.then_ 0 (returning 0) (after_builder x)).1 = Ok (ABuilder 0) ∧
  (eval [ABuilder 0] (call_expr (CallThen (EVar 1))) (after_builder x)).1 = Ok (ABuilder 0).
Proof. split; vm_compute; reflexivity. Qed.

Lemma operation_leaves_receiver_witness :
  let s := after_builder x in
  let c := CallConnectLayer 10 (Some (nn "tanh")) None None true None in
  st_objs s !! 0 = Some (mkBuilder x default_variables) ∧
  st_dicts s !! default_variables = Some ∅ ∧
  let out := eval [ABuilder 0] (call_expr c) s in
  out.1 = Ok (ABuilder 3) ∧ view out.2 0 = Some (x, ∅) ∧ 3 ∉ dom (st_objs s).
Proof.
  intros s c.
  assert (st_objs s !! 0 = Some (mkBuilder x default_variables)) as Hb
    by (vm_compute; reflexivity).
  assert (st_dicts s !! default_variables = Some ∅) as Hm by (vm_compute; reflexivity).
  split; [exact Hb|]. split; [exact Hm|]. intros out.
  assert (out.1 = Ok (ABuilder 3)) as Hout by (vm_compute; reflexivity).
  destruct (operation_leaves_receiver s 0 _ _ [] c Hb Hm) as (Hb' & Hm' & Hnew).
  split; [exact Hout|]. split.
  - apply (view_lookup _ _ _ _ default_variables); [exact Hb'|exact Hm'].
  - apply (Hnew eq_refl 3 Hout).
Defined.

(** C4, refuted as stated: with an empty [weights_name] the parameter is not
    recorded under the name given but under the generated one. *)
Lemma connect_weights_empty_name_counterexample :
  let out := Builder.connect_weights 0 3 None (Some EmptyString) (after_builder x) in
  out.1 = Ok 1 ∧
  ∃ t m, view out.2 1 = Some (t, m) ∧ m !! EmptyString = None ∧
         m !! "Variable:0" = Some (Var "Variable" [5; 3]) ∧ size m = 1.
Proof.
  split; [vm_compute; reflexivity|].
  eexists _, _. split; [vm_compute; reflexivity|].
  repeat split; vm_compute; reflexivity.
Qed.

Lemma connect_weights_creates_witness :
  let s := after_builder x in
  view s 0 = Some (x, ∅) ∧
  shape_of (Placeholder (Some [None; Some 5])) = Some [None; Some 5] ∧
  new_variable [5; 3] (Some "w") 0 = (inr (Var "w" [5; 3]), 1) ∧
  SymTF.matmul (Placeholder (Some [None; Some 5])) (Var "w" [5; 3]) None 1 =
    (inr (MatMul (Placeholder (Some [None; Some 5])) (Var "w" [5; 3])), 1) ∧
  ∃ nd' s',
    Builder.connect_weights 0 3 None (Some "w") s = (Ok nd', s') ∧
    view s' nd' =
      Some (PyTensor (MatMul (Placeholder (Some [None; Some 5])) (Var "w" [5; 3])),
            {[ "w" := Var "w" [5; 3] ]}).
Proof.
  intros s.
  assert (view s 0 = Some (x, ∅)) as Hv by (vm_compute; reflexivity).
  split; [exact Hv|]. split; [reflexivity|]. split; [reflexivity|]. split; [reflexivity|].
  destruct (connect_weights_creates s 0 (Placeholder (Some [None; Some 5])) ∅
              None 5 3 None (Some "w") (Var "w" [5; 3]) 1
              (MatMul (Placeholder (Some [None; Some 5])) (Var "w" [5; 3])) 1
              Hv eq_refl eq_refl eq_refl)
    as (nd' & s' & key & Hrun & Hv' & _ & _ & _ & Hkey & _).
  exists nd', s'. split; [exact Hrun|].
  rewrite Hv', (Hkey "w" eq_refl); [reflexivity|discriminate].
Defined.

Lemma connect_layer_parameters_witness :
  let s := after_builder x in
  let out := Builder.connect_layer 0 10 (Some (nn "tanh")) None None true None s in
  view s 0 = Some (x, ∅) ∧ out = (Ok 3, out.2) ∧
  ∃ t' m' w b,
    view out.2 3 = Some (t', m') ∧
    m' = <[name_of b := b]> (<[name_of w := w]> ∅) ∧ size m' = 2.
Proof.
  intros s out.
  assert (view s 0 = Some (x, ∅)) as Hv by (vm_compute; reflexivity).
  assert (out = (Ok 3, out.2)) as Hrun.
  { apply injective_projections; [vm_compute; reflexivity|reflexivity]. }
  split; [exact Hv|]. split; [exact Hrun|].
  destruct (connect_layer_parameters s 0 x ∅ 10 (Some (nn "tanh")) None None true None
              3 out.2 Hv Hrun)
    as (t' & m' & d & w & g1 & Hv' & Hd & Hw & d' & b & g2 & g3 & Hb & Hm & Hsize).
  exists t', m', w, b. split; [exact Hv'|]. split; [exact Hm|].
  assert ((λ v : view_of, size v.2) <$> view out.2 3 = Some 2) as Hs
    by (vm_compute; reflexivity).
  rewrite Hv' in Hs. injection Hs as Hs. exact Hs.
Defined.

(** C7, refuted as stated: the list [builders] returns for the tree [[n]]
    does not hold [n] but another object. *)
Lemma builders_not_the_nodes_counterexample :
  let out := BuilderTree.builders [ABuilder 0] (after_builder x) in
  dfs (ABuilderTree [ABuilder 0]) = [0] ∧ out.1 = Ok [1] ∧ out.1 ≠ Ok [0].
Proof.
  intros out. assert (out.1 = Ok [1]) as H by (vm_compute; reflexivity).
  split; [reflexivity|]. split; [exact H|]. rewrite H. discriminate.
Qed.

Lemma builders_yields_copies_in_order_witness :
  let s := after_two_builders in
  let tree := [ABuilderTree [ABuilder 1]; ABuilder 0; ABuilderTree [ABuilderTree [ABuilder 1]]] in
  Forall (λ l, is_Some (view s l)) (dfs (ABuilderTree tree)) ∧
  dfs (ABuilderTree tree) = [1; 0; 1] ∧
  ∃ ls s', BuilderTree.builders tree s = (Ok ls, s') ∧
    (λ c, fst <$> view s' c) <$> ls = [Some x; Some wide; Some x] ∧ NoDup ls.
Proof.
  intros s tree.
  assert (Forall (λ l, is_Some (view s l)) (dfs (ABuilderTree tree))) as Hlive.
  { repeat constructor; eexists; vm_compute; reflexivity. }
  split; [exact Hlive|]. split; [reflexivity|].
  destruct (builders_yields_copies_in_order s tree Hlive)
    as (ls & s' & Hrun & Hviews & _ & Hnd & _).
  exists ls, s'. split; [exact Hrun|]. split; [|exact Hnd].
  change (dfs (ABuilderTree tree)) with [1; 0; 1] in Hviews.
  repeat match goal with
         | H : Forall2 _ _ (_ :: _) |- _ =>
             apply Forall2_cons_inv_r in H as (? & ? & [? _] & H & ->)
         | H : Forall2 _ _ [] |- _ => apply Forall2_nil_inv_r in H as ->
         end.
  cbn [fmap list_fmap].
  repeat match goal with H : view s' _ = view s _ |- _ => rewrite H; clear H end.
  vm_compute. reflexivity.
Defined.

(** C9, refuted as stated: the element [_leafs] yields is not the
    receiver. *)
Lemma builder_leafs_not_receiver_counterexample :
  (Builder._leafs 0 ret (after_builder x)).1 = Ok [1] ∧
  (Builder._leafs 0 ret (after_builder x)).1 ≠ Ok [0].
Proof.
  assert ((Builder._leafs 0 ret (after_builder x)).1 = Ok [1]) as H
    by (vm_compute; reflexivity).
  split; [exact H|]. rewrite H. discriminate.
Qed.

Lemma builder_leafs_yields_copy_witness :
  view (after_builder x) 0 = Some (x, ∅) ∧
  ∃ c s', Builder._leafs 0 ret (after_builder x) = (Ok [c], s') ∧
    c ≠ 0 ∧ view s' c = Some (x, ∅) ∧ view s' 0 = Some (x, ∅).
Proof.
  assert (view (after_builder x) 0 = Some (x, ∅)) as Hv by (vm_compute; reflexivity).
  split; [exact Hv|].
  destruct (builder_leafs_yields_copy (after_builder x) 0 (x, ∅) Hv)
    as (c & s' & Hrun & Hne & _ & Hvc & Hv0 & _).
  exists c, s'. repeat split; assumption.
Defined.

Lemma default_mapping_is_never_written_witness :
  st_dicts just_imported !! default_variables = Some ∅ ∧
  ∃ b1 b2 s2,
    (b1 <- builder wide ;; b2 <- builder x ;; ret (b1, b2)) just_imported
      = (Ok (b1, b2), s2) ∧
    let script := [EConnectLayer (EVar 0) 3 (Some (nn "tanh")) None (Some "w") true (Some "b");
                   EBranch (EVar 0) [EVar 0; EConnectWeights (EVar 0) 2 None None];
                   ETreeConnectLayer (EVar 0) 4 None (Some "layer") true None] in
    view (run [ABuilder b1] script s2).2 b2 = Some (x, ∅).
Proof.
  assert (st_dicts just_imported !! default_variables = Some ∅) as Hdef by reflexivity.
  split; [exact Hdef|].
  destruct (default_mapping_is_never_written just_imported wide x ∅ Hdef)
    as (b1 & b2 & s1 & s2 & H1 & H2 & _ & _ & _ & _ & Hkeep).
  exists b1, b2, s2. split.
  - unfold bind, ret. rewrite H1, H2. reflexivity.
  - intros script. apply (Hkeep [] script).
Defined.

Lemma fan_in_connect_layer_witness :
  let s := after_two_builders in
  let tree := [ABuilder 0; ABuilderTree [ABuilder 1]] in
  let vs : list view_of := [(wide, ∅); (x, ∅)] in
  Forall2 (λ l v, view s l = Some v) (dfs (ABuilderTree tree)) vs ∧
  vs ≠ [] ∧ Forall (λ v, two_dimensional v.1) vs ∧
  ∃ l s' v,
    BuilderTree.connect_layer tree 3 (Some (nn "softmax")) (Some "layer") true None s
      = (Ok l, s') ∧
    view s' l = Some v ∧
    v.1 = PyTensor (Apply "softmax"
            (Add (Add (MatMul (Placeholder (Some [None; Some 8])) (Var "Variable" [8; 3]))
                      (MatMul (Placeholder (Some [None; Some 5])) (Var "Variable_1" [5; 3])))
                 (Var "Variable_2" [3]))) ∧
    dom v.2 = {[ "Variable:0"; "Variable_1:0"; "Variable_2:0" ]}.
Proof.
  intros s tree vs.
  assert (Forall2 (λ l v, view s l = Some v) (dfs (ABuilderTree tree)) vs) as Hvs
    by (repeat constructor; vm_compute; reflexivity).
  assert (vs ≠ []) as Hne by discriminate.
  assert (Forall (λ v : view_of, two_dimensional v.1) vs) as Htwo
    by (repeat constructor; eexists _, _, _; split; reflexivity).
  split; [exact Hvs|]. split; [exact Hne|]. split; [exact Htwo|].
  destruct (fan_in_connect_layer s tree vs 3 (Some (nn "softmax")) (Some "layer") true None
              Hvs Hne Htwo) as [Hret _].
  assert (∃ v g,
    fan_in_spec vs 3 (Some (nn "softmax")) (Some "layer") true None (st_graph s) = (Ok v, g) ∧
    v.1 = PyTensor (Apply "softmax"
            (Add (Add (MatMul (Placeholder (Some [None; Some 8])) (Var "Variable" [8; 3]))
                      (MatMul (Placeholder (Some [None; Some 5])) (Var "Variable_1" [5; 3])))
                 (Var "Variable_2" [3]))) ∧
    dom v.2 = {[ "Variable:0"; "Variable_1:0"; "Variable_2:0" ]}) as (v & g & Hspec & Hval & Hdom).
  { eexists _, _. split; [vm_compute; reflexivity|]. split; vm_compute; reflexivity. }
  destruct (returns_view_ok _ _ _ _ _ Hret Hspec) as (l & s' & Hrun & Hv & _).
  exists l, s', v. repeat split; assumption.
Defined.

(** C5 at work: a layer of ten units with bias and [tanh], and its three
    steps made one by one, are observed alike. *)
Example connect_layer_is_composition_example :
  observe (Builder.connect_layer 0 10 (Some (nn "tanh")) (Some "h") None true None
             (after_builder x)) =
  (Ok (Some (PyTensor
               (Apply "tanh"
                  (Add (MatMul (Placeholder (Some [None; Some 5])) (Var "Variable" [5; 10]))
                       (Var "Variable_1" [10]))),
             {[ "Variable:0" := Var "Variable" [5; 10];
                "Variable_1:0" := Var "Variable_1" [10] ]})), 2).
Proof. vm_compute. reflexivity. Qed.

End Instances.

(** ** Further properties of the code *)

Ltac view_cases H :=
  unfold layer_view, weights_view, bias_view, apply_view, map_view, matmul, add, tf,
    bind, ret, raise, lift_result in H;
  cbn beta iota delta [fst snd] in H;
  repeat (case_match; try done); simplify_eq.

Section FurtherProperties.
Context {C : Collaborator}.

Lemma wp_ok {A} (m : M A) (P : A → state → Prop) s :
  wp m (λ r s', ∃ a, r = Ok a ∧ P a s') s → ∃ a s', m s = (Ok a, s') ∧ P a s'.
Proof.
  unfold wp. destruct (m s) as [r s']. cbn [fst snd]. intros (a & -> & HP). eauto.
Qed.

Lemma new_is_not_old s l l' v : view s l = Some v → l' ∉ dom (st_objs s) → l' ≠ l.
Proof. intros Hv Hl ->. by apply Hl, (view_dom s l v). Qed.

(** X1.  On a Node whose value is a tensor with known second extent [n]
    (of any rank), [connect_bias] has the framework create one parameter of
    shape [[n]], adds it to the receiver's value, and returns a new Node
    holding the sum and the receiver's mapping with the parameter recorded
    under [name_or bias_name b.name]; the receiver is as it was. *)
Theorem connect_bias_creates s nd x mp dims n name bn b g1 y g2 :
  view s nd = Some (PyTensor x, mp) →
  get_shape x = Some dims → dims !! 1 = Some (Some n) →
  tf_Variable [n] bn (st_graph s) = (inr b, g1) →
  tf_add x b name g1 = (inr y, g2) →
  ∃ nd' s',
    Builder.connect_bias nd name bn s = (Ok nd', s') ∧
    view s' nd' = Some (PyTensor y, <[name_or bn (tensor_name b) := b]> mp) ∧
    st_graph s' = g2 ∧ nd' ≠ nd ∧ (nd' ∉ dom (st_objs s)) ∧
    view s' nd = Some (PyTensor x, mp).
Proof.
  intros Hv Hsh Hd Hb Hy.
  pose proof (connect_bias_spec s nd name bn) as Hspec. rewrite Hv in Hspec.
  assert (bias_view (PyTensor x, mp) name bn (st_graph s) =
          (Ok (PyTensor y, <[name_or bn (tensor_name b) := b]> mp), g2)) as Hview.
  { unfold bias_view, add, tf, bind, ret, lift_result, dim1, shape_index1.
    cbn [fst snd]. rewrite Hsh, Hd. cbn. by rewrite Hb, Hy. }
  destruct (returns_view_ok _ _ _ _ _ Hspec Hview) as (nd' & s' & Hrun & Hv' & Hnew & Hext & Hg).
  exists nd', s'. split; [done|]. split; [done|]. split; [done|].
  split; [by eapply new_is_not_old|]. split; [done|]. by apply (view_extends s).
Qed.

(** X2.  [map] applies the function to the receiver's value once.  When the
    function returns, the result is a new Node holding what it returned and
    a mapping equal to the receiver's; when it raises, the exception passes
    through.  Either way the graph is the one the function left and the
    receiver is as it was. *)
Theorem map_applies s nd t mp (fn : mapped) r g1 :
  view s nd = Some (t, mp) → fn t (st_graph s) = (r, g1) →
  ∃ s', st_graph s' = g1 ∧ view s' nd = Some (t, mp) ∧ extends s s' ∧
    match r with
    | inr t' => ∃ nd', Builder.map nd fn s = (Ok nd', s') ∧
                  view s' nd' = Some (t', mp) ∧ nd' ≠ nd ∧ nd' ∉ dom (st_objs s)
    | inl e => Builder.map nd fn s = (Raise (TFError e), s')
    end.
Proof.
  intros Hv Hfn.
  pose proof (map_spec s nd fn) as Hspec. rewrite Hv in Hspec.
  destruct r as [e|t'].
  - assert (map_view (t, mp) fn (st_graph s) = (Raise (TFError e), g1)) as Hview.
    { unfold map_view, tf, bind. cbn [fst snd]. by rewrite Hfn. }
    destruct (returns_view_raise _ _ _ _ _ Hspec Hview) as (s' & Hrun & Hext & Hg).
    exists s'. split; [done|]. split; [by apply (view_extends s)|]. by split.
  - assert (map_view (t, mp) fn (st_graph s) = (Ok (t', mp), g1)) as Hview.
    { unfold map_view, tf, bind, ret. cbn [fst snd]. by rewrite Hfn. }
    destruct (returns_view_ok _ _ _ _ _ Hspec Hview) as (nd' & s' & Hrun & Hv' & Hnew & Hext & Hg).
    exists s'. split; [done|]. split; [by apply (view_extends s)|]. split; [done|].
    exists nd'. split; [done|]. split; [done|]. split; [by eapply new_is_not_old|done].
Qed.

Lemma copy_runs s n t m :
  view s n = Some (t, m) →
  ∃ c s1 dn dc,
    Builder.copy n s = (Ok c, s1) ∧ extends s s1 ∧ st_graph s1 = st_graph s ∧
    (c ∉ dom (st_objs s)) ∧ (dc ∉ dom (st_dicts s)) ∧
    st_objs s1 !! n = Some (mkBuilder t dn) ∧ st_objs s1 !! c = Some (mkBuilder t dc) ∧
    st_dicts s1 !! dn = Some m ∧ st_dicts s1 !! dc = Some m.
Proof.
  intros Hv. destruct (view_inv _ _ _ Hv) as (dn & Hon & Hdn). cbn [fst snd] in *.
  assert (wp (Builder.copy n) (λ r s1, ∃ c, r = Ok c ∧ ∃ dc,
    extends s s1 ∧ st_graph s1 = st_graph s ∧
    (c ∉ dom (st_objs s)) ∧ (dc ∉ dom (st_dicts s)) ∧
    st_objs s1 !! n = Some (mkBuilder t dn) ∧ st_objs s1 !! c = Some (mkBuilder t dc) ∧
    st_dicts s1 !! dn = Some m ∧ st_dicts s1 !! dc = Some m) s) as Hwp.
  { apply wp_copy. rewrite Hv. intros l d s' Hext Hl Hd Hol Hdl Hg.
    exists l. split; [done|]. exists d. cbn [fst snd] in *.
    split; [done|]. split; [done|]. split; [done|]. split; [done|].
    split; [by apply (extends_objs s)|]. split; [done|].
    split; [by apply (extends_dicts s)|done]. }
  apply wp_ok in Hwp as (c & s1 & Hrun & dc & H). exists c, s1, dn, dc. by split.
Qed.

(** X3.  [copy] returns a new Builder with the receiver's value and a new
    dict equal to the receiver's: afterwards the two Builders are observed
    alike, and an entry written to the dict of either one does not show in
    the other. *)
Theorem copy_is_independent s n t m :
  view s n = Some (t, m) →
  ∃ c s1 dn dc,
    Builder.copy n s = (Ok c, s1) ∧ c ≠ n ∧ (c ∉ dom (st_objs s)) ∧
    st_objs s1 !! n = Some (mkBuilder t dn) ∧ st_objs s1 !! c = Some (mkBuilder t dc) ∧
    dc ≠ dn ∧ (dc ∉ dom (st_dicts s)) ∧
    view s1 n = Some (t, m) ∧ view s1 c = Some (t, m) ∧ st_graph s1 = st_graph s ∧
    ∀ k v,
      (let s2 := (dict_setitem dc k v s1).2 in
       view s2 c = Some (t, <[k := v]> m) ∧ view s2 n = Some (t, m)) ∧
      (let s2 := (dict_setitem dn k v s1).2 in
       view s2 n = Some (t, <[k := v]> m) ∧ view s2 c = Some (t, m)).
Proof.
  intros Hv.
  destruct (copy_runs s n t m Hv)
    as (c & s1 & dn & dc & Hrun & Hext & Hg & Hc & Hdc & Hon & Hoc & Hdn & Hdc').
  assert (dc ≠ dn) as Hne.
  { intros ->. apply Hdc. destruct (view_inv _ _ _ Hv) as (d & Ho & Hd).
    rewrite (extends_objs _ _ _ _ Hext Ho) in Hon. injection Hon as <-.
    apply elem_of_dom. eauto. }
  exists c, s1, dn, dc. split; [done|]. split; [by eapply new_is_not_old|].
  split; [done|]. split; [done|]. split; [done|]. split; [done|]. split; [done|].
  split; [by apply (view_lookup _ _ _ _ dn)|]. split; [by apply (view_lookup _ _ _ _ dc)|].
  split; [done|]. intros k v. split; cbv zeta; unfold dict_setitem.
  - rewrite Hdc'. cbn [snd]. split.
    + apply (view_lookup _ _ _ _ dc); red_state; [done|]. by rewrite lookup_insert_eq.
    + apply (view_lookup _ _ _ _ dn); red_state; [done|]. by rewrite lookup_insert_ne.
  - rewrite Hdn. cbn [snd]. split.
    + apply (view_lookup _ _ _ _ dn); red_state; [done|]. by rewrite lookup_insert_eq.
    + apply (view_lookup _ _ _ _ dc); red_state; [done|]. by rewrite lookup_insert_ne.
Qed.

(** X4.  [then] hands its callback a copy of the receiver.  A callback that
    writes to the Builder it is handed (an entry into its mapping, a new
    value) and returns it gives a new Builder with the entry and the value;
    the receiver has neither. *)
Theorem then_hands_over_a_copy s n t m k v t' :
  view s n = Some (t, m) →
  ∃ c s', Builder.then_ n (write_in_place k v t') s = (Ok (ABuilder c), s') ∧
    c ≠ n ∧ (c ∉ dom (st_objs s)) ∧
    view s' c = Some (t', <[k := v]> m) ∧ view s' n = Some (t, m) ∧
    st_graph s' = st_graph s.
Proof.
  intros Hv.
  destruct (copy_runs s n t m Hv)
    as (c & s1 & dn & dc & Hrun & Hext & Hg & Hc & Hdc & Hon & Hoc & Hdn & Hdc').
  assert (c ≠ n) as Hcn by by eapply new_is_not_old.
  assert (dc ≠ dn) as Hne.
  { intros ->. apply Hdc. destruct (view_inv _ _ _ Hv) as (d & Ho & Hd).
    rewrite (extends_objs _ _ _ _ Hext Ho) in Hon. injection Hon as <-.
    apply elem_of_dom. eauto. }
  assert (wp (write_in_place k v t' c) (λ r s', r = Ok (ABuilder c) ∧
    view s' c = Some (t', <[k := v]> m) ∧ view s' n = Some (t, m) ∧
    st_graph s' = st_graph s) s1) as Hwp.
  { unfold write_in_place. wp_run. split; [done|]. split; [|split; [|done]].
    - apply (view_lookup _ _ _ _ dc); red_state; by rewrite lookup_insert_eq.
    - apply (view_lookup _ _ _ _ dn); red_state; by rewrite lookup_insert_ne. }
  unfold wp in Hwp. destruct Hwp as (Hr & Hvc & Hvn & Hg').
  exists c, (write_in_place k v t' c s1).2.
  split; [|done].
  unfold Builder.then_, _immutable, copy_of, Builder.has_copy, bind. rewrite Hrun.
  rewrite <-Hr. by destruct (write_in_place k v t' c s1).
Qed.


(** X5.  When [connect_layer] is given one and the same non-empty name for
    the weight and for the bias, the second assignment replaces the first:
    the result's mapping is the receiver's with one entry under that name,
    which holds the bias; the weight is in the graph but under no key of
    its own. *)
Theorem connect_layer_same_name_overwrites s n t m size fn name p n' s' :
  view s n = Some (t, m) → p ≠ EmptyString →
  Builder.connect_layer n size fn name (Some p) true (Some p) s = (Ok n', s') →
  ∃ t' d w g1 d' b g2 g3,
    dim1 t = Ok d ∧ tf_Variable [d; size] (Some p) (st_graph s) = (inr w, g1) ∧
    tf_Variable [d'] (Some p) g2 = (inr b, g3) ∧
    view s' n' = Some (t', <[p := b]> m) ∧ dom (<[p := b]> m) = {[p]} ∪ dom m.
Proof.
  intros Hv Hp Hrun.
  pose proof (connect_layer_spec s n size fn name (Some p) true (Some p)) as Hspec.
  rewrite Hv in Hspec. destruct Hspec as (_ & _ & Hr). rewrite Hrun in Hr.
  cbn [fst snd] in Hr.
  destruct (layer_view (t, m) size fn name (Some p) true (Some p) (st_graph s))
    as [[[t' m']|e] g'] eqn:Hl; [|done].
  destruct Hr as [Hv' _].
  destruct (layer_view_params _ _ _ _ _ _ _ _ _ _ Hl)
    as (d & w & g1 & Hd & Hw & d' & b & g2 & g3 & Hb & Hm).
  cbn [fst snd] in *. unfold name_or in Hm. rewrite !decide_False in Hm by done.
  rewrite insert_insert_eq in Hm. subst m'.
  exists t', d, w, g1, d', b, g2, g3. repeat split; try done. by rewrite dom_insert_L.
Qed.


Lemma each_leaf_app {A} (consume : loc → M A) l1 l2 s :
  each_leaf consume (l1 ++ l2) s =
  (xs <- each_leaf consume l1 ;; ys <- each_leaf consume l2 ;; ret (xs ++ ys)) s.
Proof.
  revert s. induction l1 as [|l l1 IH]; intros s.
  - cbn [app each_leaf]. rewrite bind_unfold. cbn [ret]. rewrite bind_unfold.
    by destruct (each_leaf consume l2 s) as [[ys|e] s'].
  - cbn [app each_leaf]. rewrite !bind_unfold.
    destruct (Builder._leafs l consume s) as [[xs|e] s1]; [|done].
    rewrite !bind_unfold, IH, !bind_unfold.
    destruct (each_leaf consume l1 s1) as [[ys|e] s2]; [|done].
    cbn [ret]. rewrite !bind_unfold.
    destruct (each_leaf consume l2 s2) as [[zs|e] s3]; [|done].
    cbn [ret]. by rewrite app_assoc.
Qed.

(** The traversal of a tree visits its leaves as the flat list [dfs] gives
    them: the nesting plays no part. *)
Lemma element_leafs_flat {A} (consume : loc → M A) e : ∀ s,
  BuilderTree.element_leafs e consume s = each_leaf consume (dfs e) s.
Proof.
  induction e as [b|bs IH] using element_ind'; intros s.
  - cbn [BuilderTree.element_leafs dfs each_leaf]. rewrite !bind_unfold.
    destruct (Builder._leafs b consume s) as [[xs|e] s1]; [|done].
    unfold bind, ret. by rewrite app_nil_r.
  - rewrite element_leafs_tree. cbn [dfs].
    revert s. induction IH as [|e bs IHe _ IHbs]; intros s; [done|].
    cbn [leafs_loop fmap list_fmap concat]. rewrite each_leaf_app, !bind_unfold, IHe.
    destruct (each_leaf consume (dfs e) s) as [[xs|e'] s1]; [|done].
    by rewrite !bind_unfold, IHbs.
Qed.

(** X15.  Only the left-to-right sequence of the leaves of a tree matters:
    two trees with the same sequence of leaves, however nested, give the
    same result and the same store under [builders], [tensors] and
    [connect_layer]. *)
Theorem tree_nesting_is_irrelevant tree1 tree2 s :
  dfs (ABuilderTree tree1) = dfs (ABuilderTree tree2) →
  BuilderTree.builders tree1 s = BuilderTree.builders tree2 s ∧
  BuilderTree.tensors tree1 s = BuilderTree.tensors tree2 s ∧
  ∀ size fn name bias bn,
    BuilderTree.connect_layer tree1 size fn name bias bn s =
    BuilderTree.connect_layer tree2 size fn name bias bn s.
Proof.
  intros Hdfs.
  assert (∀ A (consume : loc → M A),
    BuilderTree._leafs tree1 consume s = BuilderTree._leafs tree2 consume s) as Hleafs.
  { intros A consume. unfold BuilderTree._leafs. by rewrite !element_leafs_flat, Hdfs. }
  split; [apply Hleafs|]. split; [apply Hleafs|].
  intros size fn name bias bn. unfold BuilderTree.connect_layer.
  change (_immutable ?f tree1 s) with (f tree1 s).
  change (_immutable ?f tree2 s) with (f tree2 s). cbv beta.
  by rewrite !bind_unfold, Hleafs.
Qed.

Lemma get_tensor_run s l b :
  st_objs s !! l = Some b → get_tensor l s = (Ok (tensor b), s).
Proof. intros H. unfold get_tensor, get_object, bind, ret. by rewrite H. Qed.

Lemma each_leaf_tensors ls : ∀ s vs,
  Forall2 (λ l v, view s l = Some v) ls vs →
  ∃ s', each_leaf get_tensor ls s = (Ok vs.*1, s') ∧ extends s s' ∧
        st_graph s' = st_graph s.
Proof.
  induction ls as [|l ls IH]; intros s vs Hvs.
  - apply Forall2_nil_inv_l in Hvs as ->. by exists s.
  - apply Forall2_cons_inv_l in Hvs as ([t m] & vs' & Hv & Hvs & ->).
    destruct (copy_runs s l t m Hv)
      as (c & s1 & dn & dc & Hrun & Hext & Hg & Hc & Hdc & Hon & Hoc & Hdn & Hdc').
    destruct (IH s1 vs') as (s2 & Hrest & Hext2 & Hg2); [by eapply views_extend|].
    exists s2. split; [|split; [by etrans|congruence]].
    cbn [each_leaf]. unfold Builder._leafs, _immutable, copy_of, Builder.has_copy.
    rewrite !bind_unfold, Hrun, !bind_unfold, (get_tensor_run _ _ _ Hoc).
    cbn [ret tensor]. by rewrite !bind_unfold, Hrest.
Qed.



Lemma fan_in_view_one v size fn name bias bn g :
  fan_in_view [v] size fn name bias bn g = layer_view v size fn name None bias bn g.
Proof.
  unfold fan_in_view, layer_view. cbn [each_view]. rewrite !bind_unfold.
  destruct (weights_view v size None None g) as [[[t m]|e] g1]; [|done].
  cbn [ret]. rewrite !bind_unfold. unfold add_views, merge_views.
  cbn [sum_views foldl fst snd ret]. rewrite !bind_unfold. cbn [ret].
  by rewrite (right_id_L ∅ (∪)).
Qed.

(** X7.  The fan-in layer over a tree with one leaf is the layer of that
    leaf: [connect_layer] of the tree and [connect_layer] of the Builder,
    with no name for the weight, are observed alike, exception or value,
    mapping and graph. *)
Theorem fan_in_of_one_leaf s tree n size fn name bias bn :
  dfs (ABuilderTree tree) = [n] →
  observe (BuilderTree.connect_layer tree size fn name bias bn s) =
  observe (Builder.connect_layer n size fn name None bias bn s).
Proof.
  intros Hdfs.
  pose proof (connect_layer_spec s n size fn name None bias bn) as Hn.
  destruct (view s n) as [v|] eqn:Hv.
  - assert (Forall2 (λ l v, view s l = Some v) (dfs (ABuilderTree tree)) [v]) as Hvs
      by (rewrite Hdfs; by repeat constructor).
    pose proof (tree_connect_layer_spec s tree [v] size fn name bias bn Hvs) as Ht.
    rewrite fan_in_view_one in Ht.
    by rewrite (returns_view_observe _ _ _ Ht), (returns_view_observe _ _ _ Hn).
  - rewrite Hn. pose proof (copy_spec s n) as Hcopy. rewrite Hv in Hcopy.
    unfold BuilderTree.connect_layer, BuilderTree._leafs.
    change (_immutable ?f tree s) with (f tree s). cbv beta.
    rewrite bind_unfold, element_leafs_flat, Hdfs. cbn [each_leaf].
    unfold Builder._leafs, _immutable, copy_of, Builder.has_copy.
    by rewrite !bind_unfold, Hcopy.
Qed.

Lemma merge_views_lookup k vs : ∀ acc,
  merge_views acc vs !! k =
  foldl (λ found v, match v.2 !! k with Some w => Some w | None => found end) (acc !! k) vs.
Proof.
  unfold merge_views. induction vs as [|v vs IH]; intros acc; [done|].
  cbn [foldl]. rewrite IH. f_equal. rewrite lookup_union.
  by destruct (v.2 !! k), (acc !! k).
Qed.

(** X14.  [_add_builders] returns a new Builder with a dict of its own.
    Its mapping holds, for every key, the entry of the last Builder of the
    list that has the key; its value is the sum of the values, taken from
    left to right.  On the empty list the value is [None] and the mapping
    is empty; on a list of one Builder the result is observed like that
    Builder and nothing is added.  The Builders of the list are as they
    were. *)
Theorem add_builders_merges s ls vs :
  Forall2 (λ l v, view s l = Some v) ls vs →
  let out := _add_builders ls s in
  Forall2 (λ l v, view out.2 l = Some v) ls vs ∧
  (∀ l, out.1 = Ok l →
     ∃ t m, view out.2 l = Some (t, m) ∧ (l ∉ dom (st_objs s)) ∧
       (∀ k, m !! k = last_binding k vs) ∧
       sum_views PyNone vs (st_graph s) = (Ok t, st_graph out.2)) ∧
  (vs = [] →
     ∃ l, out.1 = Ok l ∧ view out.2 l = Some (PyNone, ∅) ∧ st_graph out.2 = st_graph s) ∧
  (∀ v, vs = [v] →
     ∃ l, out.1 = Ok l ∧ view out.2 l = Some v ∧ st_graph out.2 = st_graph s).
Proof.
  intros Hvs out. pose proof (add_builders_spec s ls vs Hvs) as Hspec. fold out in Hspec.
  destruct Hspec as (Hext & Hg & Hr). unfold add_views in Hr, Hg. rewrite bind_unfold in Hr, Hg.
  destruct out as [r s']. cbn [fst snd] in *.
  split; [by eapply views_extend|]. split; [|split].
  - intros l ->.
    destruct (sum_views PyNone vs (st_graph s)) as [[t|e] g1]; cbn [ret fst snd] in *; [|done].
    destruct Hr as [Hv Hnew]. exists t, (merge_views ∅ vs).
    split; [done|]. split; [done|]. split; [|by rewrite Hg].
    intros k. by rewrite merge_views_lookup.
  - intros ->. cbn in Hr, Hg. destruct r as [l|e]; [|done].
    destruct Hr as [Hv _]. by exists l.
  - intros v ->. unfold merge_views in Hr. cbn [sum_views foldl] in Hr, Hg.
    rewrite !bind_unfold in Hr, Hg. cbn [ret fst snd] in Hr, Hg.
    rewrite (right_id_L ∅ (∪)) in Hr.
    destruct r as [l|e]; [|done]. destruct Hr as [Hv _].
    exists l. split; [done|]. split; [|done]. by destruct v.
Qed.

Lemma weights_view_keys v size name wn g v' g' :
  weights_view v size name wn g = (Ok v', g') → dom v.2 ⊆ dom v'.2.
Proof.
  intros H. destruct v as [t m]. view_cases H. cbn [fst snd].
  rewrite dom_insert_L. set_solver.
Qed.

Lemma bias_view_keys v name bn g v' g' :
  bias_view v name bn g = (Ok v', g') → dom v.2 ⊆ dom v'.2.
Proof.
  intros H. destruct v as [t m]. view_cases H. cbn [fst snd].
  rewrite dom_insert_L. set_solver.
Qed.

Lemma apply_view_keys v fn name g v' g' :
  apply_view v fn name g = (Ok v', g') → v'.2 = v.2.
Proof. intros H. destruct v as [t m]. by view_cases H. Qed.

Lemma map_view_keys v fn g v' g' : map_view v fn g = (Ok v', g') → v'.2 = v.2.
Proof. intros H. destruct v as [t m]. by view_cases H. Qed.

Lemma tail_view_keys (v : view_of) (bias : bool) bn fn name g v' g' :
  (v1 <- (if bias then bias_view v None bn else ret v) ;;
   match fn with Some fn => apply_view v1 fn name | None => ret v1 end) g = (Ok v', g') →
  dom v.2 ⊆ dom v'.2.
Proof.
  rewrite bind_unfold.
  match goal with
  | |- context [let (_, _) := ?X in _] => destruct X as [[v1|e] g1] eqn:H1
  end; cbn beta iota; [|done].
  intros H2.
  assert (dom v.2 ⊆ dom v1.2) as Hsub1.
  { destruct bias; [by eapply bias_view_keys|]. by injection H1 as <- _. }
  assert (v'.2 = v1.2) as ->; [|done].
  destruct fn as [fn|]; [by eapply apply_view_keys|]. by injection H2 as <- _.
Qed.

Lemma layer_view_keys v size fn name wn bias bn g v' g' :
  layer_view v size fn name wn bias bn g = (Ok v', g') → dom v.2 ⊆ dom v'.2.
Proof.
  unfold layer_view. rewrite bind_unfold.
  destruct (weights_view v size None wn g) as [[v1|e] g1] eqn:H1; cbn beta iota; [|done].
  intros H2. etrans; [by eapply weights_view_keys|]. by eapply tail_view_keys.
Qed.

Lemma method_keeps_keys s (n : loc) (v : view_of) (m : M loc) (vm : V view_of) l s' :
  returns_view s (m s) (vm (st_graph s)) →
  (∀ v' g', vm (st_graph s) = (Ok v', g') → dom v.2 ⊆ dom v'.2) →
  m s = (Ok l, s') →
  ∃ v', view s' l = Some v' ∧ dom v.2 ⊆ dom v'.2 ∧ extends s s'.
Proof.
  intros (Hext & _ & Hr) Hkeys Hrun. rewrite Hrun in Hr, Hext. cbn [fst snd] in *.
  destruct (vm (st_graph s)) as [[v'|e] g']; [|done]. destruct Hr as [Hv' _].
  exists v'. split; [done|]. split; [by eapply Hkeys|done].
Qed.

Lemma call_keeps_keys s n (v : view_of) env c r s' :
  view s n = Some v → makes_builder c = true →
  eval (ABuilder n :: env) (call_expr c) s = (Ok r, s') →
  ∃ l v', r = ABuilder l ∧ view s' l = Some v' ∧ dom v.2 ⊆ dom v'.2 ∧ extends s s'.
Proof.
  intros Hv Hmk Hrun.
  assert (∀ (m : M loc) (vm : view_of → V view_of),
    returns_view s (m s) (vm v (st_graph s)) →
    (∀ v' g', vm v (st_graph s) = (Ok v', g') → dom v.2 ⊆ dom v'.2) →
    (b <- m ;; ret (ABuilder b)) s = (Ok r, s') →
    ∃ l v', r = ABuilder l ∧ view s' l = Some v' ∧ dom v.2 ⊆ dom v'.2 ∧ extends s s') as Hmeth.
  { intros m vm Hret Hkeys. rewrite bind_unfold.
    pose proof (λ l s1, method_keeps_keys s n v m (vm v) l s1 Hret Hkeys) as Hk.
    destruct (m s) as [[l|e] s1]; cbn beta iota; [|done]. intros [= <- <-].
    destruct (Hk l s1 eq_refl) as (v' & H1 & H2 & H3). by exists l, v'. }
  destruct c; try done; cbn [call_expr] in Hrun.
  - pose proof (connect_weights_spec s n size name weights_name) as Hs. rewrite Hv in Hs.
    eapply (Hmeth _ (λ v, weights_view v size name weights_name)); [exact Hs| |exact Hrun].
    intros v' g'. apply weights_view_keys.
  - pose proof (connect_bias_spec s n name bias_name) as Hs. rewrite Hv in Hs.
    eapply (Hmeth _ (λ v, bias_view v name bias_name)); [exact Hs| |exact Hrun].
    intros v' g'. apply bias_view_keys.
  - pose proof (connect_layer_spec s n size fn name weights_name bias bias_name) as Hs.
    rewrite Hv in Hs.
    eapply (Hmeth _ (λ v, layer_view v size fn name weights_name bias bias_name));
      [exact Hs| |exact Hrun].
    intros v' g'. apply layer_view_keys.
  - pose proof (map_spec s n fn) as Hs. rewrite Hv in Hs.
    eapply (Hmeth _ (λ v, map_view v fn)); [exact Hs| |exact Hrun].
    intros v' g' H. by rewrite (map_view_keys _ _ _ _ _ H).
  - destruct v as [t m].
    destruct (copy_runs s n t m Hv)
      as (c & s1 & dn & dc & Hc & Hext & Hg & Hnew & Hdc & Hon & Hoc & Hdn & Hdc').
    change (eval (ABuilder n :: env) (ELeaf (EVar 0) 0) s) with
      ((ls <- (c <- Builder.copy n ;; r <- ret c ;; ret [r]) ;;
        match ls !! 0 with Some l => ret (ABuilder l) | None => raise IndexError end) s)
      in Hrun.
    rewrite !bind_unfold, Hc in Hrun. cbn in Hrun. injection Hrun as <- <-.
    exists c, (t, m). split; [done|]. split; [by apply (view_lookup _ _ _ _ dc)|done].
Qed.

(** X8.  Along a chain of calls [n.op1(...).op2(...)...] of
    [connect_weights], [connect_bias], [connect_layer], [map] and [_leafs],
    each made on the result of the one before, no key is ever dropped from
    the parameter mapping: when the chain returns, its last result is a
    Builder whose mapping has every key of the mapping of [n]. *)
Theorem chain_never_drops_a_key cs : ∀ s n v env env' s',
  view s n = Some v → Forall (λ c, makes_builder c = true) cs →
  run (ABuilder n :: env) (call_expr <$> cs) s = (Ok env', s') →
  ∃ l v' rest, env' = ABuilder l :: rest ∧ view s' l = Some v' ∧ dom v.2 ⊆ dom v'.2.
Proof.
  induction cs as [|c cs IH]; intros s n v env env' s' Hv Hcs Hrun.
  - injection Hrun as <- <-. by exists n, v, env.
  - apply Forall_cons in Hcs as [Hc Hcs]. cbn [fmap list_fmap run] in Hrun.
    rewrite bind_unfold in Hrun.
    destruct (eval (ABuilder n :: env) (call_expr c) s) as [[r|e] s1] eqn:Hstep; [|done].
    destruct (call_keeps_keys _ _ _ _ _ _ _ Hv Hc Hstep) as (l1 & v1 & -> & Hv1 & Hsub & _).
    destruct (IH _ _ _ _ _ _ Hv1 Hcs Hrun) as (l & v' & rest & -> & Hv' & Hsub').
    exists l, v', rest. split; [done|]. split; [done|]. by etrans.
Qed.

Lemma each_weights_keys vs size : ∀ g ws g',
  each_view (λ v, weights_view v size None None) vs g = (Ok ws, g') →
  Forall2 (λ v w : view_of, dom v.2 ⊆ dom w.2) vs ws.
Proof.
  induction vs as [|v vs IH]; intros g ws g' H.
  - injection H as <- _. constructor.
  - cbn [each_view] in H. rewrite bind_unfold in H.
    destruct (weights_view v size None None g) as [[w|e] g1] eqn:Hw; [|done].
    rewrite bind_unfold in H.
    destruct (each_view (λ v, weights_view v size None None) vs g1) as [[ws'|e] g2] eqn:Hws;
      [|done].
    injection H as <- _. constructor; [by eapply weights_view_keys|by eapply IH].
Qed.

Lemma merge_views_keys ws : ∀ acc,
  dom acc ⊆ dom (merge_views acc ws) ∧
  Forall (λ w : view_of, dom w.2 ⊆ dom (merge_views acc ws)) ws.
Proof.
  unfold merge_views. induction ws as [|w ws IH]; intros acc; [by split|].
  cbn [foldl]. destruct (IH (w.2 ∪ acc)) as [Hacc Hws].
  rewrite dom_union_L in Hacc. split; [set_solver|]. constructor; [set_solver|done].
Qed.

Lemma fan_in_view_keys vs size fn name bias bn g v' g' :
  fan_in_view vs size fn name bias bn g = (Ok v', g') →
  Forall (λ v : view_of, dom v.2 ⊆ dom v'.2) vs.
Proof.
  unfold fan_in_view. rewrite bind_unfold.
  destruct (each_view (λ v, weights_view v size None None) vs g) as [[ws|e] g1] eqn:Hws;
    cbn beta iota; [|done].
  rewrite bind_unfold. unfold add_views at 1. rewrite bind_unfold.
  destruct (sum_views PyNone ws g1) as [[t|e] g2]; cbn beta iota; [|done]. cbn [ret].
  intros Htail. apply tail_view_keys in Htail. cbn [snd] in Htail.
  pose proof (each_weights_keys _ _ _ _ _ Hws) as Hkeys.
  destruct (merge_views_keys ws ∅) as [_ Hmerge].
  apply Forall_forall. intros v Hin.
  apply list_elem_of_lookup in Hin as [i Hi].
  destruct (Forall2_lookup_l _ _ _ _ _ Hkeys Hi) as (w & Hw & Hsub).
  etrans; [exact Hsub|]. etrans; [|exact Htail].
  rewrite Forall_forall in Hmerge. apply Hmerge. by eapply list_elem_of_lookup_2.
Qed.

(** X9.  When the fan-in [connect_layer] of a tree returns, the mapping of
    the Node it returns has every key of the mapping of every leaf. *)
Theorem fan_in_keeps_every_key s tree vs size fn name bias bn l s' :
  Forall2 (λ l v, view s l = Some v) (dfs (ABuilderTree tree)) vs →
  BuilderTree.connect_layer tree size fn name bias bn s = (Ok l, s') →
  ∃ v', view s' l = Some v' ∧ (l ∉ dom (st_objs s)) ∧
        Forall (λ v : view_of, dom v.2 ⊆ dom v'.2) vs.
Proof.
  intros Hvs Hrun.
  pose proof (tree_connect_layer_spec s tree vs size fn name bias bn Hvs) as (_ & _ & Hr).
  rewrite Hrun in Hr. cbn [fst snd] in Hr.
  destruct (fan_in_view vs size fn name bias bn (st_graph s)) as [[v'|e] g'] eqn:Hf; [|done].
  destruct Hr as [Hv' Hnew]. exists v'. split; [done|]. split; [done|].
  by eapply fan_in_view_keys.
Qed.

(** X10.  Every Builder made by [builder] holds the one dict that is the
    default argument of [__init__], whatever that dict holds by then.  An
    entry written directly to the [variables] of one such Builder is
    therefore in the mapping of every other, and of every Builder that
    [builder] makes afterwards. *)
Theorem default_mapping_is_shared s0 t1 t2 m0 k v :
  st_dicts s0 !! default_variables = Some m0 →
  ∃ b1 b2 s2,
    (b1 <- builder t1 ;; b2 <- builder t2 ;; ret (b1, b2)) s0 = (Ok (b1, b2), s2) ∧
    b1 ≠ b2 ∧ view s2 b1 = Some (t1, m0) ∧ view s2 b2 = Some (t2, m0) ∧
    ∃ s3, (vs <- get_variables b1 ;; dict_setitem vs k v) s2 = (Ok (), s3) ∧
      view s3 b1 = Some (t1, <[k := v]> m0) ∧
      view s3 b2 = Some (t2, <[k := v]> m0) ∧
      ∀ t3, ∃ b3 s4, builder t3 s3 = (Ok b3, s4) ∧ view s4 b3 = Some (t3, <[k := v]> m0).
Proof.
  intros Hdef.
  set (b1 := fresh (dom (st_objs s0))).
  set (s1 := mkState (<[b1 := mkBuilder t1 default_variables]> (st_objs s0))
               (st_dicts s0) (st_graph s0)).
  set (b2 := fresh (dom (st_objs s1))).
  set (s2 := mkState (<[b2 := mkBuilder t2 default_variables]> (st_objs s1))
               (st_dicts s1) (st_graph s1)).
  assert (b1 ≠ b2) as Hne.
  { intros Heq. pose proof (is_fresh (dom (st_objs s1))) as Hf. apply Hf.
    fold b2. rewrite <-Heq. subst s1. cbn [st_objs]. rewrite dom_insert_L. set_solver. }
  assert (st_objs s2 !! b1 = Some (mkBuilder t1 default_variables)) as Hb1.
  { subst s2 s1. cbn [st_objs]. rewrite lookup_insert_ne by done. by rewrite lookup_insert_eq. }
  assert (st_objs s2 !! b2 = Some (mkBuilder t2 default_variables)) as Hb2
    by (subst s2; cbn [st_objs]; by rewrite lookup_insert_eq).
  exists b1, b2, s2. split; [done|]. split; [done|].
  split; [by apply (view_lookup _ _ _ _ default_variables)|].
  split; [by apply (view_lookup _ _ _ _ default_variables)|].
  set (s3 := mkState (st_objs s2) (<[default_variables := <[k := v]> m0]> (st_dicts s2))
               (st_graph s2)).
  exists s3. split.
  { assert (st_dicts s2 !! default_variables = Some m0) as Hd2 by done.
    apply eq_wp. by wp_run. }
  assert (st_dicts s3 !! default_variables = Some (<[k := v]> m0)) as Hd3
    by (subst s3; cbn [st_dicts]; by rewrite lookup_insert_eq).
  split; [by apply (view_lookup _ _ _ _ default_variables)|].
  split; [by apply (view_lookup _ _ _ _ default_variables)|].
  intros t3. eexists _, _. split; [reflexivity|].
  apply (view_lookup _ _ _ _ default_variables); [|done].
  cbn [st_objs]. by rewrite lookup_insert_eq.
Qed.

(** X11.  Over a framework that infers shapes, the value [connect_weights]
    returns on a value of shape [[m, n]] has shape [[m, size]]: the width
    of one layer is the input width of the next. *)
Theorem connect_weights_width {L : CollaboratorLaws C} s nd x mp r n size name wn nd' s' :
  view s nd = Some (PyTensor x, mp) → get_shape x = Some [r; Some n] →
  Builder.connect_weights nd size name wn s = (Ok nd', s') →
  ∃ y mp', view s' nd' = Some (PyTensor y, mp') ∧ get_shape y = Some [r; Some size] ∧
    dim1 (PyTensor y) = Ok size.
Proof.
  intros Hv Hsh Hrun.
  pose proof (connect_weights_spec s nd size name wn) as Hspec. rewrite Hv in Hspec.
  destruct Hspec as (_ & _ & Hr). rewrite Hrun in Hr. cbn [fst snd] in Hr.
  destruct (weights_view (PyTensor x, mp) size name wn (st_graph s)) as [[[t' m']|e] g'] eqn:Hw;
    [|done].
  destruct Hr as [Hv' _].
  unfold weights_view, matmul, tf, bind, ret, lift_result, dim1, shape_index1 in Hw.
  cbn [fst snd] in Hw. rewrite Hsh in Hw. cbn [lookup list_lookup] in Hw.
  destruct (tf_Variable [n; size] wn (st_graph s)) as [[e|w] g1] eqn:Hvar; [done|].
  destruct (tf_matmul x w name g1) as [[e|y] g2] eqn:Hmm; [done|].
  injection Hw as <- <- <-.
  assert (get_shape y = Some [r; Some size]) as Hy.
  { eapply tf_matmul_shape; [exact Hmm|exact Hsh|].
    by rewrite (tf_Variable_shape _ _ _ _ _ Hvar). }
  exists y, (<[name_or wn (tensor_name w) := w]> mp). split; [done|]. split; [done|].
  cbn. unfold shape_index1. by rewrite Hy.
Qed.

(** X12.  When the framework refuses the product, [connect_weights] raises
    what the framework raised and returns no Node.  The parameter was
    created before: it stays in the graph, but in the mapping of no
    Builder, and the receiver is as it was. *)
Theorem connect_weights_product_fails s nd x mp dims n size name wn w g1 e g2 :
  view s nd = Some (PyTensor x, mp) →
  get_shape x = Some dims → dims !! 1 = Some (Some n) →
  tf_Variable [n; size] wn (st_graph s) = (inr w, g1) →
  tf_matmul x w name g1 = (inl e, g2) →
  ∃ s', Builder.connect_weights nd size name wn s = (Raise (TFError e), s') ∧
        st_graph s' = g2 ∧ extends s s' ∧ view s' nd = Some (PyTensor x, mp).
Proof.
  intros Hv Hsh Hd Hw Hy.
  pose proof (connect_weights_spec s nd size name wn) as Hspec. rewrite Hv in Hspec.
  assert (weights_view (PyTensor x, mp) size name wn (st_graph s) =
          (Raise (TFError e), g2)) as Hview.
  { unfold weights_view, matmul, tf, bind, ret, lift_result, dim1, shape_index1.
    cbn [fst snd]. rewrite Hsh, Hd. cbn. by rewrite Hw, Hy. }
  destruct (returns_view_raise _ _ _ _ _ Hspec Hview) as (s' & Hrun & Hext & Hg).
  exists s'. split; [done|]. split; [done|]. split; [done|]. by apply (view_extends s).
Qed.


(** X13.  The fan-in [connect_layer] connects the leaves in order and stops
    at the first leaf whose value has no known second dimension: it raises
    what reading that dimension raises and returns no Node.  The weights of
    the leaves before it were created and stay in the graph; nothing is
    created for the leaves after it. *)
Theorem fan_in_stops_at_first_bad_leaf s tree vs1 v vs2 size fn name bias bn ws g1 e :
  Forall2 (λ l v, view s l = Some v) (dfs (ABuilderTree tree)) (vs1 ++ v :: vs2) →
  each_view (λ v, weights_view v size None None) vs1 (st_graph s) = (Ok ws, g1) →
  dim1 v.1 = Raise e →
  ∃ s', BuilderTree.connect_layer tree size fn name bias bn s = (Raise e, s') ∧
        extends s s' ∧ st_graph s' = g1.
Proof.
  intros Hvs Hws Hbad.
  pose proof (tree_connect_layer_spec s tree _ size fn name bias bn Hvs) as Hspec.
  apply (returns_view_raise _ _ _ _ _ Hspec).
  unfold fan_in_view. rewrite bind_unfold, each_view_app, bind_unfold, Hws, bind_unfold.
  cbn [each_view]. rewrite bind_unfold. unfold weights_view at 1.
  rewrite bind_unfold. unfold lift_result. by rewrite Hbad.
Qed.

(** X16.  [then] is transparent for the methods: [n.then(lambda b:
    b.connect_layer(...))] and [n.connect_layer(...)] are observed alike, the
    same exception or a Builder with the same value and mapping, and the
    same graph. *)
Theorem then_is_transparent s n size fn name wn bias bn :
  observe ((r <- Builder.then_ n (λ b,
                  l <- Builder.connect_layer b size fn name wn bias bn ;; ret (ABuilder l)) ;;
            on_builder r ret) s) =
  observe (Builder.connect_layer n size fn name wn bias bn s).
Proof.
  pose proof (connect_layer_spec s n size fn name wn bias bn) as Hn.
  pose proof (copy_spec s n) as Hcopy.
  destruct (view s n) as [[t m]|] eqn:Hv.
  - rewrite (returns_view_observe _ _ _ Hn).
    destruct (copy_runs s n t m Hv)
      as (c & s1 & dn & dc & Hc & Hext & Hg & Hnew & Hdc & Hon & Hoc & Hdn & Hdc').
    pose proof (connect_layer_spec s1 c size fn name wn bias bn) as Hc1.
    rewrite (view_lookup _ _ _ _ _ Hoc Hdc'), Hg in Hc1.
    apply (returns_view_weaken s) in Hc1; [|done].
    rewrite <-(returns_view_observe _ _ _ Hc1).
    unfold Builder.then_, _immutable, copy_of, Builder.has_copy.
    rewrite !bind_unfold, Hc, bind_unfold.
    by destruct (Builder.connect_layer c size fn name wn bias bn s1) as [[l|e] s2].
  - rewrite Hn. unfold Builder.then_, _immutable, copy_of, Builder.has_copy.
    by rewrite !bind_unfold, Hcopy.
Qed.

Lemma each_leaf_builders ls : ∀ s vs,
  Forall2 (λ l v, view s l = Some v) ls vs →
  ∃ cs s', each_leaf ret ls s = (Ok cs, s') ∧ extends s s' ∧
    Forall2 (λ c v, view s' c = Some v) cs vs.
Proof.
  induction ls as [|l ls IH]; intros s vs Hvs.
  - apply Forall2_nil_inv_l in Hvs as ->. exists [], s. by repeat split.
  - apply Forall2_cons_inv_l in Hvs as ([t m] & vs' & Hv & Hvs & ->).
    destruct (copy_runs s l t m Hv)
      as (c & s1 & dn & dc & Hrun & Hext & Hg & Hc & Hdc & Hon & Hoc & Hdn & Hdc').
    destruct (IH s1 vs') as (cs & s2 & Hrest & Hext2 & Hcs); [by eapply views_extend|].
    exists (c :: cs), s2. split; [|split; [by etrans|]].
    + cbn [each_leaf]. unfold Builder._leafs, _immutable, copy_of, Builder.has_copy.
      rewrite !bind_unfold, Hrun, !bind_unfold. cbn [ret]. by rewrite !bind_unfold, Hrest.
    + constructor; [|done]. apply (view_extends s1); [done|].
      by apply (view_lookup _ _ _ _ dc).
Qed.

Lemma tensors_run s tree vs :
  Forall2 (λ l v, view s l = Some v) (dfs (ABuilderTree tree)) vs →
  ∃ s', BuilderTree.tensors tree s = (Ok vs.*1, s') ∧ extends s s' ∧
        st_graph s' = st_graph s.
Proof.
  intros Hvs. unfold BuilderTree.tensors, BuilderTree._leafs.
  rewrite element_leafs_flat. by apply each_leaf_tensors.
Qed.

(** X6.  For a tree whose leaves are live Builders, [tensors] returns the
    values of the leaves, one for each Builder met by the depth-first,
    left-to-right traversal, in that order: the values of the Builders that
    [builders] returns.  The graph is untouched and every existing object
    is as it was. *)
Theorem tensors_in_order s tree vs :
  Forall2 (λ l v, view s l = Some v) (dfs (ABuilderTree tree)) vs →
  (∃ s', BuilderTree.tensors tree s = (Ok vs.*1, s') ∧ extends s s' ∧
         st_graph s' = st_graph s) ∧
  ∃ cs s', BuilderTree.builders tree s = (Ok cs, s') ∧
           Forall2 (λ c t, fst <$> view s' c = Some t) cs vs.*1.
Proof.
  intros Hvs. split; [by apply tensors_run|].
  unfold BuilderTree.builders, BuilderTree._leafs. rewrite element_leafs_flat.
  destruct (each_leaf_builders _ _ _ Hvs) as (cs & s' & Hrun & _ & Hcs).
  exists cs, s'. split; [done|]. apply Forall2_fmap_r.
  eapply Forall2_impl; [exact Hcs|]. intros c v Hc. by rewrite Hc.
Qed.

Lemma dfs_builders ls : dfs (ABuilderTree (ABuilder <$> ls)) = ls.
Proof. cbn [dfs]. induction ls as [|l ls IH]; [done|]. cbn. by f_equal. Qed.

Lemma map_each_runs z t m fs : ∀ s ts g',
  view s z = Some (t, m) →
  each_view (λ f : mapped, tf (f t)) fs (st_graph s) = (Ok ts, g') →
  ∃ ls s', map_each fs z s = (Ok (ABuilder <$> ls), s') ∧ extends s s' ∧
    st_graph s' = g' ∧ Forall2 (λ l t', view s' l = Some (t', m)) ls ts.
Proof.
  induction fs as [|f fs IH]; intros s ts g' Hv Hrun.
  - injection Hrun as <- <-. exists [], s. by repeat split.
  - cbn [each_view] in Hrun. rewrite bind_unfold in Hrun.
    destruct (tf (f t) (st_graph s)) as [[t1|e] g1] eqn:Hf; [|done].
    rewrite bind_unfold in Hrun.
    destruct (each_view (λ f : mapped, tf (f t)) fs g1) as [[ts'|e] g2] eqn:Hrest; [|done].
    injection Hrun as <- <-.
    pose proof (map_spec s z f) as Hspec. rewrite Hv in Hspec.
    assert (map_view (t, m) f (st_graph s) = (Ok (t1, m), g1)) as Hview.
    { unfold map_view. cbn [fst snd]. by rewrite bind_unfold, Hf. }
    destruct (returns_view_ok _ _ _ _ _ Hspec Hview) as (l & s1 & Hl & Hvl & _ & Hext & Hg).
    destruct (IH s1 ts' g2) as (ls & s2 & Hls & Hext2 & Hg2 & Hviews).
    { by apply (view_extends s). }
    { by rewrite Hg. }
    exists (l :: ls), s2. split; [|split; [by etrans|split; [done|]]].
    + cbn [map_each]. by rewrite bind_unfold, Hl, bind_unfold, Hls.
    + constructor; [by apply (view_extends s1)|done].
Qed.

(** X17.  [n.branch(lambda z: [z.map(f1), z.map(f2), ...]).tensors()]
    returns the list [[f1(x), f2(x), ...]] for the value [x] of [n]: each
    function is applied once to the value of the receiver, in the order of
    the list, and the results come back in that order. *)
Theorem branch_of_maps_tensors s n t m (fs : list mapped) ts g' :
  view s n = Some (t, m) →
  each_view (λ f : mapped, tf (f t)) fs (st_graph s) = (Ok ts, g') →
  ∃ s', (tree <- Builder.branch n (map_each fs) ;; on_tree tree BuilderTree.tensors) s
          = (Ok ts, s') ∧
        st_graph s' = g' ∧ extends s s'.
Proof.
  intros Hv Hfs.
  destruct (copy_runs s n t m Hv)
    as (c & s1 & dn & dc & Hc & Hext & Hg & Hnew & Hdc & Hon & Hoc & Hdn & Hdc').
  destruct (map_each_runs c t m fs s1 ts g') as (ls & s2 & Hls & Hext2 & Hg2 & Hviews).
  { by apply (view_lookup _ _ _ _ dc). }
  { by rewrite Hg. }
  destruct (tensors_run s2 (ABuilder <$> ls) ((λ t', (t', m)) <$> ts))
    as (s3 & Hts & Hext3 & Hg3).
  { rewrite dfs_builders. apply Forall2_fmap_r. eapply Forall2_impl; [exact Hviews|]. done. }
  exists s3. split; [|split; [congruence|by repeat (etrans; [eassumption|])]].
  unfold Builder.branch, _immutable, copy_of, Builder.has_copy.
  rewrite !bind_unfold, Hc, bind_unfold, Hls. cbn [ret on_tree]. rewrite Hts.
  f_equal. f_equal. rewrite <-list_fmap_compose. apply list_fmap_id.
Qed.

End FurtherProperties.

(** ** The further properties at work *)

Section FurtherInstances.
Import SymTF Examples Networks.

Lemma returned {A} (out : result exn A * state) a : out.1 = Ok a → out = (Ok a, out.2).
Proof. destruct out as [r s]. cbn. by intros ->. Qed.

Lemma connect_bias_creates_witness :
  let s := after_builder cube in
  let c := Placeholder (Some [Some 2; Some 3; Some 3]) in
  view s 0 = Some (PyTensor c, ∅) ∧
  shape_of c = Some [Some 2; Some 3; Some 3] ∧
  [Some 2; Some 3; Some 3] !! 1 = Some (Some 3) ∧
  new_variable [3] (Some "b") 0 = (inr (Var "b" [3]), 1) ∧
  SymTF.add c (Var "b" [3]) None 1 = (inr (Add c (Var "b" [3])), 1) ∧
  ∃ nd' s',
    Builder.connect_bias 0 None (Some "b") s = (Ok nd', s') ∧
    view s' nd' = Some (PyTensor (Add c (Var "b" [3])), <["b" := Var "b" [3]]> ∅) ∧
    view s' 0 = Some (PyTensor c, ∅).
Proof.
  intros s c.
  assert (view s 0 = Some (PyTensor c, ∅)) as Hv by (vm_compute; reflexivity).
  split; [exact Hv|]. split; [reflexivity|]. split; [reflexivity|].
  split; [reflexivity|]. split; [reflexivity|].
  destruct (connect_bias_creates s 0 c ∅ [Some 2; Some 3; Some 3] 3 None (Some "b")
              (Var "b" [3]) 1 (Add c (Var "b" [3])) 1
              Hv eq_refl eq_refl eq_refl eq_refl)
    as (nd' & s' & Hrun & Hv' & _ & _ & _ & Hv0).
  exists nd', s'. split; [exact Hrun|]. split; [exact Hv'|exact Hv0].
Defined.

Lemma map_applies_witness :
  let s := after_builder x in
  let y := PyTensor (Apply "sigmoid" (Placeholder (Some [None; Some 5]))) in
  view s 0 = Some (x, ∅) ∧ sigmoid x (st_graph s) = (inr y, 0) ∧
  ∃ s' nd', Builder.map 0 sigmoid s = (Ok nd', s') ∧
    view s' nd' = Some (y, ∅) ∧ nd' ≠ 0 ∧ view s' 0 = Some (x, ∅).
Proof.
  intros s y.
  assert (view s 0 = Some (x, ∅)) as Hv by (vm_compute; reflexivity).
  assert (sigmoid x (st_graph s) = (inr y, 0)) as Hfn by reflexivity.
  split; [exact Hv|]. split; [exact Hfn|].
  destruct (map_applies s 0 x ∅ sigmoid (inr y) 0 Hv Hfn)
    as (s' & _ & Hv0 & _ & nd' & Hrun & Hv' & Hne & _).
  exists s', nd'. split; [exact Hrun|]. split; [exact Hv'|]. split; [exact Hne|exact Hv0].
Defined.

Lemma copy_is_independent_witness :
  let s := after_builder x in
  view s 0 = Some (x, ∅) ∧
  ∃ c s1 dc,
    Builder.copy 0 s = (Ok c, s1) ∧ c ≠ 0 ∧
    st_objs s1 !! c = Some (mkBuilder x dc) ∧
    let s2 := (dict_setitem dc "w" (Var "w" [5; 3]) s1).2 in
    view s2 c = Some (x, <["w" := Var "w" [5; 3]]> ∅) ∧ view s2 0 = Some (x, ∅).
Proof.
  intros s.
  assert (view s 0 = Some (x, ∅)) as Hv by (vm_compute; reflexivity).
  split; [exact Hv|].
  destruct (copy_is_independent s 0 x ∅ Hv)
    as (c & s1 & dn & dc & Hrun & Hne & _ & _ & Hoc & _ & _ & _ & _ & _ & Hwrite).
  exists c, s1, dc. split; [exact Hrun|]. split; [exact Hne|]. split; [exact Hoc|].
  exact (proj1 (Hwrite "w" (Var "w" [5; 3]))).
Defined.

Lemma then_hands_over_a_copy_witness :
  let s := after_builder x in
  view s 0 = Some (x, ∅) ∧
  ∃ c s', Builder.then_ 0 (write_in_place "w" (Var "w" [5; 3]) wide) s
            = (Ok (ABuilder c), s') ∧
    c ≠ 0 ∧ view s' c = Some (wide, <["w" := Var "w" [5; 3]]> ∅) ∧
    view s' 0 = Some (x, ∅).
Proof.
  intros s.
  assert (view s 0 = Some (x, ∅)) as Hv by (vm_compute; reflexivity).
  split; [exact Hv|].
  destruct (then_hands_over_a_copy s 0 x ∅ "w" (Var "w" [5; 3]) wide Hv)
    as (c & s' & Hrun & Hne & _ & Hvc & Hv0 & _).
  exists c, s'. split; [exact Hrun|]. split; [exact Hne|]. split; [exact Hvc|exact Hv0].
Defined.

Lemma connect_layer_same_name_overwrites_witness :
  let s := after_builder x in
  let out := Builder.connect_layer 0 3 None None (Some "p") true (Some "p") s in
  view s 0 = Some (x, ∅) ∧ "p" ≠ EmptyString ∧ out = (Ok 3, out.2) ∧
  ∃ t' b, view out.2 3 = Some (t', <["p" := b]> ∅) ∧ b = Var "p" [3].
Proof.
  intros s out.
  assert (view s 0 = Some (x, ∅)) as Hv by (vm_compute; reflexivity).
  assert ("p" ≠ EmptyString) as Hp by discriminate.
  assert (out = (Ok 3, out.2)) as Hrun.
  { apply returned. vm_compute. reflexivity. }
  split; [exact Hv|]. split; [exact Hp|]. split; [exact Hrun|].
  destruct (connect_layer_same_name_overwrites s 0 x ∅ 3 None None "p" 3 out.2 Hv Hp Hrun)
    as (t' & d & w & g1 & d' & b & g2 & g3 & _ & _ & _ & Hv' & _).
  exists t', b. split; [exact Hv'|].
  assert ((λ v : view_of, v.2 !! "p") <$> view out.2 3 = Some (Some (Var "p" [3]))) as Hb
    by (vm_compute; reflexivity).
  rewrite Hv' in Hb. cbn [fmap option_fmap option_map snd] in Hb.
  rewrite lookup_insert_eq in Hb. injection Hb as Hb. exact Hb.
Defined.

Lemma tensors_in_order_witness :
  let s := after_two_builders in
  let tree := [ABuilderTree [ABuilder 1]; ABuilder 0] in
  let vs : list view_of := [(x, ∅); (wide, ∅)] in
  Forall2 (λ l v, view s l = Some v) (dfs (ABuilderTree tree)) vs ∧
  ∃ s', BuilderTree.tensors tree s = (Ok [x; wide], s') ∧ st_graph s' = st_graph s.
Proof.
  intros s tree vs.
  assert (Forall2 (λ l v, view s l = Some v) (dfs (ABuilderTree tree)) vs) as Hvs
    by (repeat constructor; vm_compute; reflexivity).
  split; [exact Hvs|].
  destruct (tensors_in_order s tree vs Hvs) as [(s' & Hrun & _ & Hg) _].
  exists s'. split; [exact Hrun|exact Hg].
Defined.

Lemma fan_in_of_one_leaf_witness :
  let s := after_builder x in
  let tree := [ABuilderTree [ABuilderTree []; ABuilder 0]] in
  dfs (ABuilderTree tree) = [0] ∧
  observe (BuilderTree.connect_layer tree 3 (Some (nn "tanh")) (Some "layer") true None s) =
  observe (Builder.connect_layer 0 3 (Some (nn "tanh")) (Some "layer") None true None s).
Proof.
  intros s tree. split; [reflexivity|].
  exact (fan_in_of_one_leaf s tree 0 3 (Some (nn "tanh")) (Some "layer") true None eq_refl).
Defined.

Lemma chain_never_drops_a_key_witness :
  let s := after_layer in
  let cs := [CallConnectLayer 2 (Some (nn "tanh")) None None true None;
             CallMap sigmoid; CallLeaves] in
  let out := run [ABuilder 3] (call_expr <$> cs) s in
  let v : view_of :=
    (PyTensor (Add (MatMul (Placeholder (Some [None; Some 5])) (Var "w0" [5; 4]))
                   (Var "b0" [4])),
     {[ "w0" := Var "w0" [5; 4]; "b0" := Var "b0" [4] ]}) in
  view s 3 = Some v ∧
  Forall (λ c, makes_builder c = true) cs ∧
  out = (Ok [ABuilder 8; ABuilder 7; ABuilder 6; ABuilder 3], out.2) ∧
  ∃ v', view out.2 8 = Some v' ∧ dom v.2 ⊆ dom v'.2.
Proof.
  intros s cs out v.
  assert (view s 3 = Some v) as Hv by (vm_compute; reflexivity).
  assert (Forall (λ c, makes_builder c = true) cs) as Hcs by (repeat constructor).
  assert (out = (Ok [ABuilder 8; ABuilder 7; ABuilder 6; ABuilder 3], out.2)) as Hrun.
  { apply returned. vm_compute. reflexivity. }
  split; [exact Hv|]. split; [exact Hcs|]. split; [exact Hrun|].
  destruct (chain_never_drops_a_key cs s 3 v [] _ out.2 Hv Hcs Hrun)
    as (l & v' & rest & Heq & Hv' & Hsub).
  injection Heq as <- _. exists v'. split; [exact Hv'|exact Hsub].
Defined.

Lemma fan_in_keeps_every_key_witness :
  let s := two_connected "wa" "wb" in
  let tree := [ABuilder 2; ABuilderTree [ABuilder 3]] in
  let out := BuilderTree.connect_layer tree 4 None None true None s in
  let va : view_of :=
    (PyTensor (MatMul (Placeholder (Some [None; Some 8])) (Var "wa" [8; 3])),
     {[ "wa" := Var "wa" [8; 3] ]}) in
  let vb : view_of :=
    (PyTensor (MatMul (Placeholder (Some [None; Some 5])) (Var "wb" [5; 3])),
     {[ "wb" := Var "wb" [5; 3] ]}) in
  Forall2 (λ l v, view s l = Some v) (dfs (ABuilderTree tree)) [va; vb] ∧
  out = (Ok 9, out.2) ∧
  ∃ v', view out.2 9 = Some v' ∧ dom va.2 ⊆ dom v'.2 ∧ dom vb.2 ⊆ dom v'.2.
Proof.
  intros s tree out va vb.
  assert (Forall2 (λ l v, view s l = Some v) (dfs (ABuilderTree tree)) [va; vb]) as Hvs
    by (repeat constructor; vm_compute; reflexivity).
  assert (out = (Ok 9, out.2)) as Hrun.
  { apply returned. vm_compute. reflexivity. }
  split; [exact Hvs|]. split; [exact Hrun|].
  destruct (fan_in_keeps_every_key s tree [va; vb] 4 None None true None 9 out.2 Hvs Hrun)
    as (v' & Hv' & _ & Hkeys).
  exists v'. split; [exact Hv'|].
  apply Forall_cons in Hkeys as [Hka Hkeys]. apply Forall_cons in Hkeys as [Hkb _].
  split; [exact Hka|exact Hkb].
Defined.

Lemma default_mapping_is_shared_witness :
  st_dicts just_imported !! default_variables = Some ∅ ∧
  ∃ b1 b2 s2 s3,
    (b1 <- builder wide ;; b2 <- builder x ;; ret (b1, b2)) just_imported
      = (Ok (b1, b2), s2) ∧
    (vs <- get_variables b1 ;; dict_setitem vs "w" (Var "w" [8; 3])) s2 = (Ok (), s3) ∧
    view s3 b2 = Some (x, <["w" := Var "w" [8; 3]]> ∅).
Proof.
  assert (st_dicts just_imported !! default_variables = Some ∅) as Hdef by reflexivity.
  split; [exact Hdef|].
  destruct (default_mapping_is_shared just_imported wide x ∅ "w" (Var "w" [8; 3]) Hdef)
    as (b1 & b2 & s2 & Hrun & _ & _ & _ & s3 & Hwrite & _ & Hv2 & _).
  exists b1, b2, s2, s3. split; [exact Hrun|]. split; [exact Hwrite|exact Hv2].
Defined.

Lemma connect_weights_width_witness :
  let s := after_builder x in
  let out := Builder.connect_weights 0 3 None None s in
  view s 0 = Some (x, ∅) ∧
  shape_of (Placeholder (Some [None; Some 5])) = Some [None; Some 5] ∧
  out = (Ok 1, out.2) ∧
  ∃ y mp', view out.2 1 = Some (PyTensor y, mp') ∧ shape_of y = Some [None; Some 3].
Proof.
  intros s out.
  assert (view s 0 = Some (x, ∅)) as Hv by (vm_compute; reflexivity).
  assert (out = (Ok 1, out.2)) as Hrun.
  { apply returned. vm_compute. reflexivity. }
  split; [exact Hv|]. split; [reflexivity|]. split; [exact Hrun|].
  destruct (connect_weights_width s 0 (Placeholder (Some [None; Some 5])) ∅ None 5 3
              None None 1 out.2 Hv eq_refl Hrun)
    as (y & mp' & Hv' & Hy & _).
  exists y, mp'. split; [exact Hv'|exact Hy].
Defined.

Lemma connect_weights_product_fails_witness :
  let s := after_builder cube in
  let c := Placeholder (Some [Some 2; Some 3; Some 3]) in
  view s 0 = Some (PyTensor c, ∅) ∧
  shape_of c = Some [Some 2; Some 3; Some 3] ∧
  [Some 2; Some 3; Some 3] !! 1 = Some (Some 3) ∧
  new_variable [3; 4] None 0 = (inr (Var "Variable" [3; 4]), 1) ∧
  SymTF.matmul c (Var "Variable" [3; 4]) None 1 = (inl "Shape must be rank 2", 1) ∧
  ∃ s', Builder.connect_weights 0 4 None None s
          = (Raise (TFError "Shape must be rank 2"), s') ∧
        st_graph s' = 1 ∧ view s' 0 = Some (PyTensor c, ∅).
Proof.
  intros s c.
  assert (view s 0 = Some (PyTensor c, ∅)) as Hv by (vm_compute; reflexivity).
  split; [exact Hv|]. split; [reflexivity|]. split; [reflexivity|].
  split; [reflexivity|]. split; [reflexivity|].
  destruct (connect_weights_product_fails s 0 c ∅ [Some 2; Some 3; Some 3] 3 4 None None
              (Var "Variable" [3; 4]) 1 "Shape must be rank 2" 1
              Hv eq_refl eq_refl eq_refl eq_refl)
    as (s' & Hrun & Hg & _ & Hv0).
  exists s'. split; [exact Hrun|]. split; [exact Hg|exact Hv0].
Defined.

Lemma fan_in_stops_at_first_bad_leaf_witness :
  let s := after_wide_and_vector in
  let tree := [ABuilder 0; ABuilder 1; ABuilder 0] in
  let ws : list view_of :=
    [(PyTensor (MatMul (Placeholder (Some [None; Some 8])) (Var "Variable" [8; 3])),
      {[ "Variable:0" := Var "Variable" [8; 3] ]})] in
  Forall2 (λ l v, view s l = Some v) (dfs (ABuilderTree tree))
    ([(wide, ∅)] ++ (vector, ∅) :: [(wide, ∅)]) ∧
  each_view (λ v, weights_view v 3 None None) [(wide, ∅)] (st_graph s) = (Ok ws, 1) ∧
  dim1 vector = Raise IndexError ∧
  ∃ s', BuilderTree.connect_layer tree 3 None None true None s = (Raise IndexError, s') ∧
        st_graph s' = 1.
Proof.
  intros s tree ws.
  assert (Forall2 (λ l v, view s l = Some v) (dfs (ABuilderTree tree))
            ([(wide, ∅)] ++ (vector, ∅) :: [(wide, ∅)])) as Hvs
    by (repeat constructor; vm_compute; reflexivity).
  assert (each_view (λ v, weights_view v 3 None None) [(wide, ∅)] (st_graph s)
          = (Ok ws, 1)) as Hws by (vm_compute; reflexivity).
  assert (dim1 vector = Raise IndexError) as Hbad by reflexivity.
  split; [exact Hvs|]. split; [exact Hws|]. split; [exact Hbad|].
  destruct (fan_in_stops_at_first_bad_leaf s tree [(wide, ∅)] (vector, ∅) [(wide, ∅)]
              3 None None true None ws 1 IndexError Hvs Hws Hbad)
    as (s' & Hrun & _ & Hg).
  exists s'. split; [exact Hrun|exact Hg].
Defined.

Lemma add_builders_merges_witness :
  let s := two_connected "w" "w" in
  let out := _add_builders [2; 3] s in
  let va : view_of :=
    (PyTensor (MatMul (Placeholder (Some [None; Some 8])) (Var "w" [8; 3])),
     {[ "w" := Var "w" [8; 3] ]}) in
  let vb : view_of :=
    (PyTensor (MatMul (Placeholder (Some [None; Some 5])) (Var "w" [5; 3])),
     {[ "w" := Var "w" [5; 3] ]}) in
  Forall2 (λ l v, view s l = Some v) [2; 3] [va; vb] ∧
  out.1 = Ok 4 ∧
  ∃ t m, view out.2 4 = Some (t, m) ∧ m !! "w" = Some (Var "w" [5; 3]) ∧
         view out.2 2 = Some va.
Proof.
  intros s out va vb.
  assert (Forall2 (λ l v, view s l = Some v) [2; 3] [va; vb]) as Hvs
    by (repeat constructor; vm_compute; reflexivity).
  assert (out.1 = Ok 4) as Hrun by (vm_compute; reflexivity).
  split; [exact Hvs|]. split; [exact Hrun|].
  destruct (add_builders_merges s [2; 3] [va; vb] Hvs) as (Hkept & Hret & _).
  destruct (Hret 4 Hrun) as (t & m & Hv & _ & Hm & _).
  exists t, m. split; [exact Hv|]. split; [rewrite Hm; vm_compute; reflexivity|].
  apply Forall2_cons in Hkept as [Hka _]. exact Hka.
Defined.

Lemma tree_nesting_is_irrelevant_witness :
  let s := after_two_builders in
  let nested := [ABuilderTree [ABuilder 0]; ABuilderTree [ABuilderTree []; ABuilder 1]] in
  let flat := [ABuilder 0; ABuilder 1] in
  dfs (ABuilderTree nested) = dfs (ABuilderTree flat) ∧
  BuilderTree.builders nested s = BuilderTree.builders flat s ∧
  BuilderTree.connect_layer nested 3 (Some (nn "softmax")) (Some "layer") true None s =
  BuilderTree.connect_layer flat 3 (Some (nn "softmax")) (Some "layer") true None s.
Proof.
  intros s nested flat. split; [reflexivity|].
  destruct (tree_nesting_is_irrelevant nested flat s eq_refl) as (Hb & _ & Hc).
  split; [exact Hb|]. apply Hc.
Defined.

Lemma branch_of_maps_tensors_witness :
  let s := after_builder x in
  let p := Placeholder (Some [None; Some 5]) in
  let ts := [PyTensor (Apply "sigmoid" p); PyTensor (Apply "relu" p)] in
  view s 0 = Some (x, ∅) ∧
  each_view (λ f : mapped, tf (f x)) [sigmoid; relu] (st_graph s) = (Ok ts, 0) ∧
  ∃ s', (tree <- Builder.branch 0 (map_each [sigmoid; relu]) ;;
         on_tree tree BuilderTree.tensors) s = (Ok ts, s').
Proof.
  intros s p ts.
  assert (view s 0 = Some (x, ∅)) as Hv by (vm_compute; reflexivity).
  assert (each_view (λ f : mapped, tf (f x)) [sigmoid; relu] (st_graph s) = (Ok ts, 0))
    as Hfs by reflexivity.
  split; [exact Hv|]. split; [exact Hfs|].
  destruct (branch_of_maps_tensors s 0 x ∅ [sigmoid; relu] ts 0 Hv Hfs) as (s' & Hrun & _).
  exists s'. exact Hrun.
Defined.

(** X16 at work: the layer made inside [then] and the layer made directly. *)
Example then_is_transparent_example :
  observe ((r <- Builder.then_ 0 (λ b,
                  l <- Builder.connect_layer b 3 (Some (nn "tanh")) None None true None ;;
                  ret (ABuilder l)) ;;
            on_builder r ret) (after_builder x)) =
  (Ok (Some (PyTensor
               (Apply "tanh"
                  (Add (MatMul (Placeholder (Some [None; Some 5])) (Var "Variable" [5; 3]))
                       (Var "Variable_1" [3]))),
             {[ "Variable:0" := Var "Variable" [5; 3];
                "Variable_1:0" := Var "Variable_1" [3] ]})), 2).
Proof. vm_compute. reflexivity. Qed.

End FurtherInstances.
